(** * Panoptic reconstruction: the robust regression loss and the
      single-image inference driver.

    Embedded sources:
    - [lib/layers/reconstruction_loss.py]: modules [Loss] and [Loss64];
    - [tools/test_net_single_image.py]: modules [Inference]
      ([configure_inference], the intrinsic matrix) and [Exporter]
      ([visualize_results], [main]).

    What the driver calls and the sources do not hold is written after
    the libraries it comes from: the configuration object in [Yacs],
    paths in [Posix], dense and sparse tensors in [Tensor] and [Sparse].
    [Sample] is a small configuration with results to run the driver on.

    The loss is embedded twice. [Loss] reads the tensor arithmetic as
    arithmetic on the reals, over exact rationals ([Q]), the one place
    where the result of a reduction is not a number (the mean of no
    element) kept as [NaN]; this is the reading in which the formulas of
    the loss are stated. [Loss64] is the same code on tensors of dtype
    [torch.float64], over the binary64 numbers of the machine, where
    every operation rounds. The grids of the exporter hold exact
    rationals: the exporter only compares their values. *)

From Stdlib Require Import QArith Qabs Lqa Bool ZArith Lia String Ascii List.
From Stdlib Require Floats Uint63.
Import ListNotations.

Set Implicit Arguments.
Set Warnings "-register-all".
Set Warnings "-inexact-float".
#[local] Open Scope string_scope.

(** ** Python exceptions and a small error monad *)

Inductive PyError : Type :=
| RuntimeError
| AttributeError
| KeyError
| ValueError
| AssertionError
| TypeError
| IndexError
| FileNotFoundError
| ParseError.

Inductive Result (A : Type) : Type :=
| Ok (a : A)
| Raise (e : PyError).

Arguments Ok {A} a.
Arguments Raise {A} e.

Definition bind {A B : Type} (m : Result A) (k : A -> Result B) : Result B :=
  match m with
  | Ok a => k a
  | Raise e => Raise e
  end.

Notation "x <- m ;; k" := (bind m (fun x => k))
  (at level 61, m at next level, right associativity).

Definition assert (b : bool) : Result unit :=
  if b then Ok tt else Raise AssertionError.

(** ** lib/layers/reconstruction_loss.py *)

Module Loss.

Local Open Scope Q_scope.

(** A one-dimensional tensor, by its elements. Two tensors of one and
    the same shape of more dimensions have the loss of their elements
    in row-major order, the loss being elementwise followed by a full
    reduction; the broadcasting of different shapes of more dimensions
    is not covered. *)
Definition Tensor := list Q.

(** The value of a full reduction: a number, or not a number. *)
Inductive Scalar : Type :=
| Num (q : Q)
| NaN.

(** [a < b] on tensors' elements, as a boolean. *)
Definition Qltb (x y : Q) : bool := negb (Qle_bool y x).

(** Elementwise binary operation with the broadcasting of one-dimensional
    tensors: equal sizes pair up, a one-element tensor is stretched, any
    other pair of sizes is refused. *)
Fixpoint zip_with (f : Q -> Q -> Q) (a b : Tensor) : Tensor :=
  match a, b with
  | x :: a', y :: b' => f x y :: zip_with f a' b'
  | _, _ => []
  end.

Definition broadcast (f : Q -> Q -> Q) (a b : Tensor) : Result Tensor :=
  if Nat.eqb (length a) (length b) then Ok (zip_with f a b)
  else match a, b with
       | [x], _ => Ok (map (f x) b)
       | _, [y] => Ok (map (fun x => f x y) a)
       | _, _ => Raise RuntimeError
       end.

(** [0.5 * n ** 2 / beta] *)
Definition quadratic (beta n : Q) : Q := (1 # 2) * n ^ 2 / beta.

(** [n - 0.5 * beta] *)
Definition linear (beta n : Q) : Q := n - (1 # 2) * beta.

(** [torch.where(n < beta, 0.5 * n ** 2 / beta, n - 0.5 * beta)] at one
    element. *)
Definition where_loss (beta n : Q) : Q :=
  if Qltb n beta then quadratic beta n else linear beta n.

(** The loss of one pair of elements. *)
Definition elementwise (beta x t : Q) : Q := where_loss beta (Qabs (x - t)).

Definition sum (l : Tensor) : Q := fold_right Qplus 0 l.

(** [loss.mean()]: the mean of no element is not a number. *)
Definition mean (l : Tensor) : Scalar :=
  match l with
  | [] => NaN
  | _ => Num (sum l / inject_Z (Z.of_nat (length l)))
  end.

(** The tensor [loss] of line 9 for two tensors of the same size. *)
Definition losses (beta : Q) (a b : Tensor) : Tensor :=
  map (where_loss beta) (zip_with (fun x t => Qabs (x - t)) a b).

Definition reconstruction_loss
    (input target : Tensor) (beta : Q) (size_average : bool) : Result Scalar :=
  n <- broadcast (fun x t => Qabs (x - t)) input target ;;
  let loss := map (where_loss beta) n in
  if size_average then Ok (mean loss) else Ok (Num (sum loss)).

(** The default threshold of the signature, [beta=1. / 9]. *)
Definition default_beta : Q := 1 / 9.

(** Two outcomes are the same: the same error, or numbers of the same
    value, or both not a number. *)
Definition same_outcome (r r' : Result Scalar) : Prop :=
  match r, r' with
  | Ok (Num q), Ok (Num q') => q == q'
  | Ok NaN, Ok NaN => True
  | Raise e, Raise e' => e = e'
  | _, _ => False
  end.

End Loss.

(** ** lib/layers/reconstruction_loss.py on [float64] tensors

    The same lines on one-dimensional tensors of dtype [torch.float64]
    on the CPU, with [beta] a Python float: every element and [beta]
    are binary64 numbers, and every operation is the IEEE operation,
    rounding to nearest. *)

Module Loss64.

Import PrimFloat.
#[local] Open Scope float_scope.

Definition Tensor : Type := list float.

(** Elementwise binary operation with the broadcasting of
    one-dimensional tensors. *)
Fixpoint zip_with (f : float -> float -> float) (a b : Tensor) : Tensor :=
  match a, b with
  | x :: a', y :: b' => f x y :: zip_with f a' b'
  | _, _ => []
  end.

Definition broadcast (f : float -> float -> float) (a b : Tensor)
  : Result Tensor :=
  if Nat.eqb (length a) (length b) then Ok (zip_with f a b)
  else match a, b with
       | [x], _ => Ok (map (f x) b)
       | _, [y] => Ok (map (fun x => f x y) a)
       | _, _ => Raise RuntimeError
       end.

(** [0.5 * n ** 2 / beta]: the power binds first, the product and the
    quotient go from left to right, and the square of a float tensor is
    the product of the element with itself. *)
Definition quadratic (beta n : float) : float := 0.5 * (n * n) / beta.

(** [n - 0.5 * beta] *)
Definition linear (beta n : float) : float := n - 0.5 * beta.

(** [torch.where(n < beta, 0.5 * n ** 2 / beta, n - 0.5 * beta)] at one
    element. *)
Definition where_loss (beta n : float) : float :=
  if n <? beta then quadratic beta n else linear beta n.

(** The loss of one pair of elements. *)
Definition elementwise (beta x t : float) : float :=
  where_loss beta (abs (x - t)).

(** The tensor [loss] of line 9 for two tensors of the same size. *)
Definition losses (beta : float) (a b : Tensor) : Tensor :=
  map (where_loss beta) (zip_with (fun x t => abs (x - t)) a b).

(** [loss.sum()], accumulated from the first element on. The order in
    which torch accumulates is its own; it makes no difference to the
    sum of one element or of elements that are all zero, which is all
    that is proved about it. *)
Definition sum (l : Tensor) : float := fold_left add l 0.

(** The number of elements, as a float. *)
Definition numel (l : Tensor) : float :=
  of_uint63 (Uint63Axioms.of_Z (Z.of_nat (length l))).

(** [loss.mean()]: the sum divided by the number of elements. *)
Definition mean (l : Tensor) : float := sum l / numel l.

Definition reconstruction_loss
    (input target : Tensor) (beta : float) (size_average : bool)
  : Result float :=
  n <- broadcast (fun x t => abs (x - t)) input target ;;
  let loss := map (where_loss beta) n in
  if size_average then Ok (mean loss) else Ok (sum loss).

(** The default threshold of the signature, [beta=1. / 9]. *)
Definition default_beta : float := 1 / 9.

End Loss64.

(** ** The configuration object ([yacs.config.CfgNode])

    [lib.config.config] is a [CfgNode]: a dictionary from names to
    values or to nested [CfgNode]s, read and written through attributes.
    The driver uses attribute assignment, [merge_from_file] and
    [merge_from_list]; they are written here after the library. *)

Module Yacs.

(** Leaf values of a configuration. *)
Inductive value : Type :=
| VNone
| VBool (b : bool)
| VInt (z : Z)
| VFloat (q : Q)
| VStr (s : string)
| VList (l : list value)
| VTuple (l : list value).

(** A node is a dictionary in insertion order. *)
Inductive Cfg : Type :=
| Leaf (v : value)
| Node (kids : list (string * Cfg)).

Definition dict := list (string * Cfg).

(** Python types, as far as [_check_and_coerce_cfg_value_type] tells
    them apart. *)
Inductive pytype : Type :=
| TNone | TBool | TInt | TFloat | TStr | TList | TTuple | TCfgNode.

Definition pytype_eqb (a b : pytype) : bool :=
  match a, b with
  | TNone, TNone | TBool, TBool | TInt, TInt | TFloat, TFloat
  | TStr, TStr | TList, TList | TTuple, TTuple | TCfgNode, TCfgNode => true
  | _, _ => false
  end.

Definition type_of_value (v : value) : pytype :=
  match v with
  | VNone => TNone
  | VBool _ => TBool
  | VInt _ => TInt
  | VFloat _ => TFloat
  | VStr _ => TStr
  | VList _ => TList
  | VTuple _ => TTuple
  end.

Definition type_of (c : Cfg) : pytype :=
  match c with
  | Leaf v => type_of_value v
  | Node _ => TCfgNode
  end.

(** [_VALID_TYPES = {tuple, list, str, int, float, bool, type(None)}] *)
Definition valid_type (t : pytype) : bool :=
  match t with
  | TCfgNode => false
  | _ => true
  end.

(** *** Dictionary operations *)

(** [d[k]] when [k in d]. *)
Fixpoint lookup (k : string) (d : dict) : option Cfg :=
  match d with
  | [] => None
  | (k', c) :: rest => if String.eqb k k' then Some c else lookup k rest
  end.

(** [d[k] = c]: an existing key keeps its place, a new one goes last. *)
Fixpoint set_item (k : string) (c : Cfg) (d : dict) : dict :=
  match d with
  | [] => [(k, c)]
  | (k', c') :: rest =>
      if String.eqb k k' then (k', c) :: rest else (k', c') :: set_item k c rest
  end.

(** [CfgNode.__getattr__]: the entry of that name. A leaf value has none
    of the configuration's names as an attribute. *)
Definition getattr (obj : Cfg) (name : string) : Result Cfg :=
  match obj with
  | Node kids =>
      match lookup name kids with
      | Some c => Ok c
      | None => Raise AttributeError
      end
  | Leaf _ => Raise AttributeError
  end.

(** [CfgNode.__setattr__] on a node that is not frozen: [self[name] = value],
    whether or not the name exists and whatever its former type. *)
Definition setattr (obj : Cfg) (name : string) (c : Cfg) : Result Cfg :=
  match obj with
  | Node kids => Ok (Node (set_item name c kids))
  | Leaf _ => Raise AttributeError
  end.

(** [obj.a.b.name = c]: the nodes on the way are fetched with
    [getattr]; the assignment mutates the innermost one in place, which
    the enclosing nodes share. *)
Fixpoint setattr_path (obj : Cfg) (path : list string) (name : string) (c : Cfg)
  : Result Cfg :=
  match path with
  | [] => setattr obj name c
  | a :: path' =>
      inner <- getattr obj a ;;
      inner' <- setattr_path inner path' name c ;;
      match obj with
      | Node kids => Ok (Node (set_item a inner' kids))
      | Leaf _ => Raise AttributeError
      end
  end.

(** [obj.a.b.name] *)
Fixpoint getattr_path (obj : Cfg) (path : list string) : Result Cfg :=
  match path with
  | [] => Ok obj
  | a :: path' => inner <- getattr obj a ;; getattr_path inner path'
  end.

(** *** Keys *)

(** [full_key.split(".")] *)
Fixpoint split_dot (s : string) : list string :=
  match s with
  | EmptyString => [EmptyString]
  | String c rest =>
      if Ascii.eqb c "."%char then EmptyString :: split_dot rest
      else match split_dot rest with
           | [] => [String c EmptyString]
           | h :: t => String c h :: t
           end
  end.

(** [".".join(keys)] *)
Fixpoint join_dot (keys : list string) : string :=
  match keys with
  | [] => EmptyString
  | [k] => k
  | k :: rest => (k ++ "." ++ join_dot rest)%string
  end.

Definition mem (k : string) (l : list string) : bool :=
  existsb (String.eqb k) l.

(** [p] is the beginning of [q]. *)
Fixpoint is_prefix (p q : list string) : bool :=
  match p, q with
  | [], _ => true
  | a :: p', b :: q' => String.eqb a b && is_prefix p' q'
  | _ :: _, [] => false
  end.

(** Two key paths are apart when neither is the beginning of the other:
    neither names the other's attribute nor a node on the way to it. *)
Definition apart (p q : list string) : bool :=
  negb (is_prefix p q) && negb (is_prefix q p).

(** The names of a configuration without its values: which attributes
    there are, in which order, and which of them are nodes. *)
Inductive Schema : Type :=
| SLeaf
| SNode (kids : list (string * Schema)).

Fixpoint schema (c : Cfg) : Schema :=
  match c with
  | Leaf _ => SLeaf
  | Node kids => SNode (map (fun kc => (fst kc, schema (snd kc))) kids)
  end.

(** The leaf a tree of settings read from a file holds at the key path
    [q]: below the last entry of each name that leads to one. *)
Fixpoint file_leaf (a : Cfg) (q : list string) {struct a} : option value :=
  match a, q with
  | Leaf x, [] => Some x
  | Node ka, k :: q' =>
      (fix entries (l : dict) : option value :=
         match l with
         | [] => None
         | (k', v_) :: rest =>
             match entries rest with
             | Some x => Some x
             | None => if String.eqb k k' then file_leaf v_ q' else None
             end
         end) ka
  | _, _ => None
  end.

(** The same over the entries of a node, on its own. *)
Fixpoint file_entries (l : dict) (k : string) (q' : list string) : option value :=
  match l with
  | [] => None
  | (k', v_) :: rest =>
      match file_entries rest k q' with
      | Some x => Some x
      | None => if String.eqb k k' then file_leaf v_ q' else None
      end
  end.

(** *** Type check of a replacement value *)

(** [_check_and_coerce_cfg_value_type(replacement, original, ...)] *)
Definition check_and_coerce (replacement original : Cfg) : Result Cfg :=
  let rt := type_of replacement in
  let ot := type_of original in
  if pytype_eqb rt ot then Ok replacement
  else if (pytype_eqb rt TNone && valid_type ot)
          || (pytype_eqb ot TNone && valid_type rt) then Ok replacement
  else match replacement, ot with
       | Leaf (VTuple l), TList => Ok (Leaf (VList l))
       | Leaf (VList l), TTuple => Ok (Leaf (VTuple l))
       | _, _ => Raise ValueError
       end.

(** The value a key ends with when the entries are applied in order:
    the one of its last entry. *)
Fixpoint last_entry (k : string) (d : dict) : option Cfg :=
  match d with
  | [] => None
  | (k', c) :: rest =>
      match last_entry k rest with
      | Some c' => Some c'
      | None => if String.eqb k k' then Some c else None
      end
  end.

Fixpoint last_value (k : string) (l : list (string * string)) : option string :=
  match l with
  | [] => None
  | (k', v) :: rest =>
      match last_value k rest with
      | Some v' => Some v'
      | None => if String.eqb k k' then Some v else None
      end
  end.

(** [w] is what the type check makes of the replacement [r] for some
    former value. *)
Definition accepted_as (r w : value) : Prop :=
  exists old, check_and_coerce (Leaf r) (Leaf old) = Ok (Leaf w).

Section Merge.

(** What the configuration module and the environment fix:
    - [literal_eval s]: the Python literal a string spells, if it spells one;
    - [load_cfg path]: the content of a configuration file as a tree of
      names, or the error of opening or parsing it;
    - the keys registered as deprecated or renamed, and the nodes that
      accept new keys. *)
Variable literal_eval : string -> option value.
Variable load_cfg : string -> Result dict.
Variable deprecated_keys : list string.
Variable renamed_keys : list string.
Variable new_allowed : list string -> bool.

(** [_decode_cfg_value] on a leaf: a string that spells a literal becomes
    that literal, anything else is kept. *)
Definition decode_cfg_value (v : value) : value :=
  match v with
  | VStr s =>
      match literal_eval s with
      | Some v' => v'
      | None => v
      end
  | _ => v
  end.

(** [_merge_a_into_b(a, b, root, key_list)]: every entry of [a], in
    order, into [b]. A nested node of [a] is merged into the node of the
    same name; a leaf replaces the leaf of the same name after the type
    check. *)
Fixpoint merge_a_into_b (a b : Cfg) (key_list : list string) {struct a}
  : Result Cfg :=
  match a, b with
  | Node ka, Node kb =>
      kb' <-
        (fix items (ka : dict) (kb : dict) {struct ka} : Result dict :=
           match ka with
           | [] => Ok kb
           | (k, v_) :: rest =>
               let full_key := join_dot (key_list ++ [k]) in
               kb1 <-
                 match lookup k kb with
                 | Some old =>
                     match v_ with
                     | Node _ =>
                         _ <- check_and_coerce v_ old ;;
                         sub <- merge_a_into_b v_ old (key_list ++ [k]) ;;
                         Ok (set_item k sub kb)
                     | Leaf x =>
                         v <- check_and_coerce (Leaf (decode_cfg_value x)) old ;;
                         Ok (set_item k v kb)
                     end
                 | None =>
                     if new_allowed key_list then
                       Ok (set_item k
                             match v_ with
                             | Leaf x => Leaf (decode_cfg_value x)
                             | Node _ => v_
                             end kb)
                     else if mem full_key deprecated_keys then Ok kb
                     else Raise KeyError
                 end ;;
               items rest kb1
           end) ka kb ;;
      Ok (Node kb')
  | _, _ => Raise AssertionError
  end.

(** The loop of [_merge_a_into_b] over the entries of [a], on its own. *)
Fixpoint merge_items (ka kb : dict) (key_list : list string) {struct ka}
  : Result dict :=
  match ka with
  | [] => Ok kb
  | (k, v_) :: rest =>
      let full_key := join_dot (key_list ++ [k]) in
      kb1 <-
        match lookup k kb with
        | Some old =>
            match v_ with
            | Node _ =>
                _ <- check_and_coerce v_ old ;;
                sub <- merge_a_into_b v_ old (key_list ++ [k]) ;;
                Ok (set_item k sub kb)
            | Leaf x =>
                v <- check_and_coerce (Leaf (decode_cfg_value x)) old ;;
                Ok (set_item k v kb)
            end
        | None =>
            if new_allowed key_list then
              Ok (set_item k
                    match v_ with
                    | Leaf x => Leaf (decode_cfg_value x)
                    | Node _ => v_
                    end kb)
            else if mem full_key deprecated_keys then Ok kb
            else Raise KeyError
        end ;;
      merge_items rest kb1 key_list
  end.

(** [merge_from_file(cfg_filename)] *)
Definition merge_from_file (self : Cfg) (cfg_filename : string) : Result Cfg :=
  cfg <- load_cfg cfg_filename ;;
  merge_a_into_b (Node cfg) self [].

(** [zip(cfg_list[0::2], cfg_list[1::2])] *)
Fixpoint pairs (cfg_list : list string) : list (string * string) :=
  match cfg_list with
  | k :: v :: rest => (k, v) :: pairs rest
  | _ => []
  end.

(** [subkey in d] followed by [d[subkey]] for a [d] that is no node:
    a string or a list that does not hold [subkey] fails the assertion,
    one that does cannot be indexed by a string, and any other value
    cannot be searched. *)
Definition not_a_node (d : value) (subkey : string) : PyError :=
  match d with
  | VStr s =>
      match String.index 0 subkey s with
      | Some _ => TypeError
      | None => AssertionError
      end
  | VList l | VTuple l =>
      if existsb (fun x => match x with
                           | VStr s => String.eqb s subkey
                           | _ => false
                           end) l
      then TypeError else AssertionError
  | _ => TypeError
  end.

(** One [full_key, v] of [merge_from_list]: walk down the nodes named by
    all but the last part of the key, then replace the entry named by the
    last part, which must exist, after decoding and type check. Walking
    into a leaf fails. *)
Fixpoint assign (d : Cfg) (key_list : list string) (v : string) : Result Cfg :=
  match d with
  | Leaf w => Raise (not_a_node w (hd "" key_list))
  | Node kids =>
      match key_list with
      | [] => Raise AssertionError
      | [subkey] =>
          match lookup subkey kids with
          | None => Raise AssertionError
          | Some old =>
              value <- check_and_coerce (Leaf (decode_cfg_value (VStr v))) old ;;
              Ok (Node (set_item subkey value kids))
          end
      | subkey :: key_list' =>
          match lookup subkey kids with
          | None => Raise AssertionError
          | Some d' =>
              d'' <- assign d' key_list' v ;;
              Ok (Node (set_item subkey d'' kids))
          end
      end
  end.

Definition merge_pair (self : Cfg) (kv : string * string) : Result Cfg :=
  let (full_key, v) := kv in
  if mem full_key deprecated_keys then Ok self
  else if mem full_key renamed_keys then Raise KeyError
  else assign self (split_dot full_key) v.

Fixpoint merge_pairs (self : Cfg) (l : list (string * string)) : Result Cfg :=
  match l with
  | [] => Ok self
  | kv :: rest => self' <- merge_pair self kv ;; merge_pairs self' rest
  end.

(** The value the pairs leave at the key path [q]: the one of the last
    pair whose key spells [q] and is not deprecated, if there is one. *)
Fixpoint last_override (q : list string) (l : list (string * string))
  : option string :=
  match l with
  | [] => None
  | (k, v) :: rest =>
      match last_override q rest with
      | Some v' => Some v'
      | None =>
          if negb (mem k deprecated_keys)
             && (if list_eq_dec string_dec (split_dot k) q then true else false)
          then Some v
          else None
      end
  end.

(** [merge_from_list(cfg_list)] *)
Definition merge_from_list (self : Cfg) (cfg_list : list string) : Result Cfg :=
  _ <- assert (Nat.even (length cfg_list)) ;;
  merge_pairs self (pairs cfg_list).

End Merge.

End Yacs.

(** ** Paths ([pathlib.PurePosixPath]) *)

Module Posix.

(** The anchor of a path: none, one slash, or exactly two. *)
Inductive Root : Type :=
| Relative
| Slash
| DoubleSlash.

Record Path : Type := mkPath { root : Root; names : list string }.

(** [part.lstrip("/")] with the number of slashes removed. *)
Fixpoint lstrip_sep (s : string) : nat * string :=
  match s with
  | String c rest =>
      if Ascii.eqb c "/"%char then
        let (n, r) := lstrip_sep rest in (S n, r)
      else (O, s)
  | EmptyString => (O, s)
  end.

(** [splitroot]: one leading slash, or three and more, give the root
    ["/"]; exactly two give ["//"]. *)
Definition splitroot (part : string) : Root * string :=
  match lstrip_sep part with
  | (O, rel) => (Relative, rel)
  | (2%nat, rel) => (DoubleSlash, rel)
  | (_, rel) => (Slash, rel)
  end.

(** [rel.split("/")] *)
Fixpoint split_sep (s : string) : list string :=
  match s with
  | EmptyString => [EmptyString]
  | String c rest =>
      if Ascii.eqb c "/"%char then EmptyString :: split_sep rest
      else match split_sep rest with
           | [] => [String c EmptyString]
           | h :: t => String c h :: t
           end
  end.

(** A component is kept when it is neither empty nor ["."]. *)
Definition keep (x : string) : bool :=
  negb (String.eqb x "") && negb (String.eqb x ".").

(** [Path(s)] *)
Definition parse (s : string) : Path :=
  let (r, rel) := splitroot s in
  mkPath r (filter keep (split_sep rel)).

(** [p / s]: a segment with a root of its own replaces the path. *)
Definition join (p : Path) (s : string) : Path :=
  let q := parse s in
  match root q with
  | Relative => mkPath (root p) (names p ++ names q)
  | _ => q
  end.

(** [p.parent]: the path without its last name; a path with no name is
    its own parent. *)
Definition parent (p : Path) : Path :=
  match names p with
  | [] => p
  | _ => mkPath (root p) (removelast (names p))
  end.

(** The string consists of separators only (or of nothing). *)
Fixpoint all_sep (s : string) : bool :=
  match s with
  | EmptyString => true
  | String c rest => Ascii.eqb c "/"%char && all_sep rest
  end.

Definition Root_eqb (a b : Root) : bool :=
  match a, b with
  | Relative, Relative | Slash, Slash | DoubleSlash, DoubleSlash => true
  | _, _ => false
  end.

Definition Path_eqb (p q : Path) : bool :=
  Root_eqb (root p) (root q)
  && (if list_eq_dec string_dec (names p) (names q) then true else false).

End Posix.

(** ** Dense and sparse tensors *)

Module Tensor.

(** An n-dimensional array: its shape and its entry at each index. *)
Record t (A : Type) : Type := mk { shape : list nat; at_ : list nat -> A }.

Arguments mk {A} shape at_.

(** All indices of a shape, in row-major order. *)
Fixpoint indices (shape : list nat) : list (list nat) :=
  match shape with
  | [] => [[]]
  | d :: rest => flat_map (fun i => map (cons i) (indices rest)) (seq 0 d)
  end.

(** The index of the squeezed array goes back to the index of the array
    by a [0] at every dimension of size one. *)
Fixpoint expand (shape : list nat) (idx : list nat) : list nat :=
  match shape with
  | [] => []
  | d :: rest =>
      if Nat.eqb d 1 then O :: expand rest idx
      else match idx with
           | i :: idx' => i :: expand rest idx'
           | [] => O :: expand rest []
           end
  end.

(** The way forth: the components at dimensions of size one are dropped. *)
Fixpoint contract (shape : list nat) (idx : list nat) : list nat :=
  match shape, idx with
  | d :: rest, i :: idx' =>
      if Nat.eqb d 1 then contract rest idx' else i :: contract rest idx'
  | _, _ => []
  end.

(** The shape without its dimensions of size one. *)
Definition squeezed (shape : list nat) : list nat :=
  filter (fun d => negb (Nat.eqb d 1)) shape.

(** [x.squeeze()]: every dimension of size one is removed. *)
Definition squeeze {A : Type} (x : t A) : t A :=
  mk (squeezed (shape x)) (fun idx => at_ x (expand (shape x) idx)).

(** An index is inside a shape when each component is below the size
    of its dimension. *)
Definition inside (idx shape : list nat) : Prop :=
  Forall2 (fun i d => (i < d)%nat) idx shape.

(** [x < c], elementwise against a number. *)
Definition lt_scalar (x : t Q) (c : Q) : t bool :=
  mk (shape x) (fun idx => Loss.Qltb (at_ x idx) c).

(** [x.nonzero()]: the indices of the true entries, in row-major order. *)
Definition nonzero (x : t bool) : list (list nat) :=
  filter (at_ x) (indices (shape x)).

(** [torch.full(shape, value)] *)
Definition full {A : Type} (shape : list nat) (value : A) : t A :=
  mk shape (fun _ => value).

End Tensor.

Module Sparse.

(** A sparse tensor of one feature channel: rows of (batch, x, y, z)
    with the feature of each. *)
Definition Coord : Type := Z * Z * Z * Z.

Record t : Type := mk { C : list Coord; F : list Q }.

(** [C[:, 1:]]: the rows without the batch column. *)
Definition spatial (s : t) : list (list Z) :=
  map (fun c : Coord => let '(_, x, y, z) := c in [x; y; z]) (C s).

(** An index into a dimension of size [d]: negative indices count from
    the end, anything outside [-d, d) is refused. *)
Definition norm_index (d : nat) (i : Z) : option nat :=
  if (0 <=? i)%Z && (i <? Z.of_nat d)%Z then Some (Z.to_nat i)
  else if (- Z.of_nat d <=? i)%Z && (i <? 0)%Z then Some (Z.to_nat (i + Z.of_nat d))
  else None.

(** The place of a row in a dense array of shape [(B, 1, X, Y, Z)] whose
    origin is [min_coordinate]. *)
Definition place (shape : list nat) (min_coordinate : Z * Z * Z) (c : Coord)
  : option (list nat) :=
  let '(b, x, y, z) := c in
  let '(mx, my, mz) := min_coordinate in
  match shape with
  | [B; _; X; Y; Z_] =>
      match norm_index B b, norm_index X (x - mx), norm_index Y (y - my),
            norm_index Z_ (z - mz) with
      | Some b', Some x', Some y', Some z' => Some [b'; O; x'; y'; z']
      | _, _, _, _ => None
      end
  | _ => None
  end.

Definition idx_eqb (a b : list nat) : bool :=
  if list_eq_dec Nat.eq_dec a b then true else false.

(** The rows placed one after the other into the array under
    construction. *)
Fixpoint scatter (shape : list nat) (min_coordinate : Z * Z * Z)
    (rows : list (Coord * Q)) (acc : list nat -> Q) : Result (list nat -> Q) :=
  match rows with
  | [] => Ok acc
  | (c, f) :: rest =>
      match place shape min_coordinate c with
      | None => Raise IndexError
      | Some p =>
          scatter shape min_coordinate rest
            (fun idx => if idx_eqb idx p then f else acc idx)
      end
  end.

(** Modelled from the spec: the sparse tensor library is not among the
    sources. [s.dense(shape, min_coordinate, default_value)] materializes
    the rows into a dense grid of the given shape [(1, 1, X, Y, Z)] whose
    origin is [min_coordinate]; the voxels no row names hold
    [default_value]. What the spec leaves open is filled in after the
    index assignment of torch, [grid[b, :, x, y, z] = f] row by row: of
    two rows that name one voxel the later stays, a negative index
    counts from the end, and a row outside the grid is an [IndexError].
    Nothing that is proved of the exporter rests on these three. *)
Definition dense (s : t) (shape : list nat) (min_coordinate : Z * Z * Z)
    (default_value : Q) : Result (Tensor.t Q) :=
  _ <- assert (Nat.eqb (length shape) 5) ;;
  at_ <- scatter shape min_coordinate (combine (C s) (F s))
           (fun _ => default_value) ;;
  Ok (Tensor.mk shape at_).

End Sparse.

(** ** tools/test_net_single_image.py *)

Module Inference.

Import Yacs.

(** The parsed command line. *)
Record Opts : Type := mkOpts {
  input : string;
  output : string;
  config_file : string;
  model : string;
  opts : list string
}.

(** [color_image_size] and [depth_image_size] of [main]: width, height. *)
Definition color_image_size : nat * nat := (320, 240)%nat.
Definition depth_image_size : nat * nat := (160, 120)%nat.

Definition Matrix := list (list Q).

(** [m[i, j]] *)
Definition entry (m : Matrix) (i j : nat) : option Q :=
  match nth_error m i with
  | Some row => nth_error row j
  | None => None
  end.

Fixpoint update_nth {A : Type} (l : list A) (n : nat) (f : A -> A) : option (list A) :=
  match l, n with
  | [], _ => None
  | x :: l', O => Some (f x :: l')
  | x :: l', S n' =>
      match update_nth l' n' f with
      | Some r => Some (x :: r)
      | None => None
      end
  end.

(** [m[i, j] *= c], outside the matrix an [IndexError]. *)
Definition scale_entry (m : Matrix) (i j : nat) (c : Q) : Result Matrix :=
  match nth_error m i with
  | None => Raise IndexError
  | Some row =>
      match update_nth row j (fun x => (x * c)%Q) with
      | None => Raise IndexError
      | Some row' =>
          match update_nth m i (fun _ => row') with
          | Some m' => Ok m'
          | None => Raise IndexError
          end
      end
  end.

Definition ratio (after before : nat) : Q :=
  (inject_Z (Z.of_nat after) / inject_Z (Z.of_nat before))%Q.

(** Modelled from the spec: [lib.utils.intrinsics.adjust_intrinsic] is
    not among the sources. The reference intrinsic matrix is rescaled
    from the color image's resolution to the depth image's by
    proportional scaling of the focal lengths ([0,0] by the ratio of the
    widths, [1,1] by the ratio of the heights) and of the principal point
    ([0,2] by the ratio of the widths, [1,2] by the ratio of the
    heights). *)
Definition adjust_intrinsic (intrinsic : Matrix)
    (intrinsic_image_dim image_dim : nat * nat) : Result Matrix :=
  let width_ratio := ratio (fst image_dim) (fst intrinsic_image_dim) in
  let height_ratio := ratio (snd image_dim) (snd intrinsic_image_dim) in
  m <- scale_entry intrinsic 0 0 width_ratio ;;
  m <- scale_entry m 1 1 height_ratio ;;
  m <- scale_entry m 0 2 width_ratio ;;
  scale_entry m 1 2 height_ratio.

(** The entry at [i, j] of [m'] is half the entry of [m]. *)
Definition halved (m m' : Matrix) (i j : nat) : Prop :=
  match entry m i j, entry m' i j with
  | Some x, Some x' => (x' == x * (1 # 2))%Q
  | _, _ => False
  end.

(** The places of the focal lengths and of the principal point. *)
Definition scaled_place (i j : nat) : bool :=
  match i, j with
  | 0%nat, 0%nat | 1%nat, 1%nat | 0%nat, 2%nat | 1%nat, 2%nat => true
  | _, _ => false
  end.

(** A number of the configuration. *)
Definition to_number (c : Cfg) : Result Q :=
  match c with
  | Leaf (VFloat q) => Ok q
  | Leaf (VInt z) => Ok (inject_Z z)
  | _ => Raise TypeError
  end.

Fixpoint to_row (l : list value) : Result (list Q) :=
  match l with
  | [] => Ok []
  | v :: rest =>
      q <- to_number (Leaf v) ;;
      r <- to_row rest ;;
      Ok (q :: r)
  end.

(** [np.array(config.MODEL.PROJECTION.INTRINSIC)] for a list of rows of
    numbers. *)
Fixpoint to_matrix (rows : list value) : Result Matrix :=
  match rows with
  | [] => Ok []
  | VList r :: rest =>
      row <- to_row r ;;
      m <- to_matrix rest ;;
      Ok (row :: m)
  | _ :: _ => Raise TypeError
  end.

(** Lines 51 and 52 of [main]. *)
Definition prepare_intrinsic (config : Cfg) : Result Matrix :=
  c <- getattr_path config ["MODEL"; "PROJECTION"; "INTRINSIC"] ;;
  m <- match c with
       | Leaf (VList rows) => to_matrix rows
       | _ => Raise TypeError
       end ;;
  adjust_intrinsic m color_image_size depth_image_size.

Section Configure.

Variable literal_eval : string -> option value.
Variable load_cfg : string -> Result dict.
Variable deprecated_keys : list string.
Variable renamed_keys : list string.
Variable new_allowed : list string -> bool.

Definition FRUSTUM3D : list string := ["MODEL"; "FRUSTUM3D"].

(** The four assignments of lines 73 to 76, seen on the entries of the
    node [MODEL.FRUSTUM3D]. *)
Definition with_inference_flags (frustum : dict) : dict :=
  set_item "FIX" (Leaf (VBool true))
    (set_item "IS_LEVEL_256" (Leaf (VBool false))
       (set_item "IS_LEVEL_128" (Leaf (VBool false))
          (set_item "IS_LEVEL_64" (Leaf (VBool false)) frustum))).

(** [configure_inference(opts)] on the global [config]. *)
Definition configure_inference (o : Opts) (config : Cfg) : Result Cfg :=
  config <- setattr config "OUTPUT_DIR" (Leaf (VStr (output o))) ;;
  config <- merge_from_file literal_eval load_cfg deprecated_keys new_allowed
              config (config_file o) ;;
  config <- merge_from_list literal_eval deprecated_keys renamed_keys
              config (opts o) ;;
  config <- setattr_path config FRUSTUM3D "IS_LEVEL_64" (Leaf (VBool false)) ;;
  config <- setattr_path config FRUSTUM3D "IS_LEVEL_128" (Leaf (VBool false)) ;;
  config <- setattr_path config FRUSTUM3D "IS_LEVEL_256" (Leaf (VBool false)) ;;
  setattr_path config FRUSTUM3D "FIX" (Leaf (VBool true)).

End Configure.

End Inference.

Module Exporter.

Import Yacs.

Section Exporter.

(** Dense data the exporter hands on without looking inside: the depth
    map, the intrinsic matrix of the results, the input image and the 2D
    detections. *)
Variable Blob : Type.

(** The results bundle, as far as [visualize_results] reads it. *)
Record Results : Type := mkResults {
  depth : Blob;
  intrinsic : Blob;
  input : Blob;
  instance : Blob;
  projection : Sparse.t;
  geometry : Sparse.t;
  panoptic_semantics : Sparse.t;
  panoptic_instances : Sparse.t
}.

(** What a writer of [lib.visualize] or [DepthMap] is called with. *)
Inductive Artifact : Type :=
| DepthPointCloud (depth intrinsic : Blob)
| DepthImage (depth intrinsic : Blob)
| DetectionImage (input instance : Blob)
| PointCloud (points : list (list Z))
| SemanticPointCloud (points : list (list Z))
| DistanceField (field : Tensor.t Q) (labels : option (Tensor.t Q)).

(** The file system sees directories made and files written. *)
Inductive Event : Type :=
| Mkdir (p : Posix.Path)
| Write (p : Posix.Path) (a : Artifact).

(** Effects: the events so far are threaded through, and a failure
    keeps the events before it. *)
Definition IO (A : Type) : Type := list Event -> list Event * Result A.

Definition bindIO {A B : Type} (m : IO A) (k : A -> IO B) : IO B :=
  fun tr =>
    match m tr with
    | (tr', Ok a) => k a tr'
    | (tr', Raise e) => (tr', Raise e)
    end.

Definition lift {A : Type} (r : Result A) : IO A := fun tr => (tr, r).

(** One call that makes a directory or writes a file. The call itself
    is taken to go through: an error of the file system (no permission,
    no space) is not among the outcomes. *)
Definition emit (e : Event) : IO unit := fun tr => ((tr ++ [e])%list, Ok tt).

Notation "x <~ m ;; k" := (bindIO m (fun x => k))
  (at level 61, m at next level, right associativity).
Notation "m ;;; k" := (bindIO m (fun _ => k))
  (at level 61, right associativity).

(** The fill value of [dense] when the call names none. *)
Variable dense_default : Q.

(** [Path(output_path)] *)
Definition to_path (output_path : Cfg) : Result Posix.Path :=
  match output_path with
  | Leaf (VStr s) => Ok (Posix.parse s)
  | _ => Raise TypeError
  end.

Fixpoint to_dims (l : list value) : Result (list nat) :=
  match l with
  | [] => Ok []
  | VInt z :: rest =>
      if (0 <=? z)%Z then r <- to_dims rest ;; Ok (Z.to_nat z :: r)
      else Raise RuntimeError
  | _ :: _ => Raise TypeError
  end.

(** [torch.Size([1, 1] + config.MODEL.FRUSTUM3D.GRID_DIMENSIONS)] *)
Definition dense_dimensions (config : Cfg) : Result (list nat) :=
  g <- getattr_path config ["MODEL"; "FRUSTUM3D"; "GRID_DIMENSIONS"] ;;
  match g with
  | Leaf (VList l) => d <- to_dims l ;; Ok ([1; 1]%nat ++ d)%list
  | _ => Raise TypeError
  end.

(** [torch.IntTensor([0, 0, 0])] *)
Definition min_coordinates : Z * Z * Z := (0, 0, 0)%Z.

(** A setting of [config.MODEL.FRUSTUM3D], as the configuration holds
    it. *)
Definition frustum3d (config : Cfg) (name : string) : Result Cfg :=
  getattr_path config ["MODEL"; "FRUSTUM3D"; name].

(** The scalar a tensor is compared with in [surface < iso_value]: a
    number, a boolean counting as 0 or 1. *)
Definition to_scalar (c : Cfg) : Result Q :=
  match c with
  | Leaf (VBool b) => Ok (if b then 1 else 0)
  | _ => Inference.to_number c
  end.

(** The truncation value as [dense] takes it, and the iso value as the
    comparison of line 109 takes it. *)
Definition truncation (config : Cfg) : Result Q :=
  c <- frustum3d config "TRUNCATION" ;;
  Inference.to_number c.

Definition iso_value (config : Cfg) : Result Q :=
  c <- frustum3d config "ISO_VALUE" ;;
  to_scalar c.

(** What lines 96 to 104 leave behind: the three dense grids, and the
    iso value as line 99 has read it, not looked at before line 109. *)
Record Volumes : Type := mkVolumes {
  dense_surface : Tensor.t Q;
  dense_semantics : Tensor.t Q;
  dense_instances : Tensor.t Q;
  iso_setting : Cfg
}.

(** Lines 96 to 104: the geometry is filled with the truncation value,
    the two panoptic grids by [dense]'s own default. *)
Definition dense_volumes (config : Cfg) (results : Results) : Result Volumes :=
  dense_dimensions <- dense_dimensions config ;;
  truncation <- frustum3d config "TRUNCATION" ;;
  iso_value <- frustum3d config "ISO_VALUE" ;;
  default_value <- Inference.to_number truncation ;;
  surface <- Sparse.dense (geometry results) dense_dimensions min_coordinates
               default_value ;;
  semantics <- Sparse.dense (panoptic_semantics results) dense_dimensions
                 min_coordinates dense_default ;;
  instances <- Sparse.dense (panoptic_instances results) dense_dimensions
                 min_coordinates dense_default ;;
  Ok (mkVolumes surface semantics instances iso_value).

(** The three dense grids with the threshold they are cut at. *)
Record Grids : Type := mkGrids {
  surface : Tensor.t Q;
  semantics : Tensor.t Q;
  instances : Tensor.t Q;
  iso : Q
}.

(** The first use of the iso value, in [surface < iso_value] on line
    109. *)
Definition thresholded (v : Volumes) : Result Grids :=
  iso <- to_scalar (iso_setting v) ;;
  Ok (mkGrids (dense_surface v) (dense_semantics v) (dense_instances v) iso).

(** The grids and the threshold of a call that gets past line 109. *)
Definition dense_grids (config : Cfg) (results : Results) : Result Grids :=
  v <- dense_volumes config results ;;
  thresholded v.

(** [(surface < iso_value).squeeze().nonzero()] *)
Definition surface_points (surface : Tensor.t Q) (iso_value : Q) : list (list Z) :=
  map (map Z.of_nat)
    (Tensor.nonzero (Tensor.squeeze (Tensor.lt_scalar surface iso_value))).

(** [visualize_results(results, output_path)], reading the global
    [config]. *)
Definition visualize_results (config : Cfg) (results : Results)
    (output_path : Cfg) : IO unit :=
  output_path <~ lift (to_path output_path) ;;
  emit (Mkdir output_path) ;;;
  emit (Write (Posix.join output_path "/depth_prediction.ply")
          (DepthPointCloud (depth results) (intrinsic results))) ;;;
  emit (Write (Posix.join output_path "depth_map.png")
          (DepthImage (depth results) (intrinsic results))) ;;;
  emit (Write (Posix.join output_path "detection.png")
          (DetectionImage (input results) (instance results))) ;;;
  emit (Write (Posix.join output_path "projection.ply")
          (PointCloud (Sparse.spatial (projection results)))) ;;;
  v <~ lift (dense_volumes config results) ;;
  emit (Write (Posix.join output_path "sparse_coordinates.ply")
          (PointCloud (Sparse.spatial (geometry results)))) ;;;
  g <~ lift (thresholded v) ;;
  let points := surface_points (surface g) (iso g) in
  emit (Write (Posix.join output_path "points_geometry.ply") (PointCloud points)) ;;;
  emit (Write (Posix.join output_path "surface_pcd.ply") (SemanticPointCloud points)) ;;;
  emit (Write (Posix.join output_path "surface_pcd.ply") (SemanticPointCloud points)) ;;;
  emit (Write (Posix.join output_path "mesh_geometry.ply")
          (DistanceField (Tensor.squeeze (surface g)) None)) ;;;
  emit (Write (Posix.join output_path "mesh_semantics.ply")
          (DistanceField (Tensor.squeeze (surface g))
             (Some (Tensor.squeeze (semantics g))))) ;;;
  emit (Write (Posix.join output_path "mesh_instances.ply")
          (DistanceField (Tensor.squeeze (surface g))
             (Some (Tensor.squeeze (instances g))))).

(** The row of [surface_points] that stands for the voxel at [idx]. *)
Definition voxel_point (shape idx : list nat) : list Z :=
  map Z.of_nat (Tensor.contract shape idx).

(** The events of one call: the directory and four files before the
    dense grids are made, the sparse coordinates once they are, and the
    other files once the surface is cut at the iso value. *)
Definition first_events (results : Results) (p : Posix.Path) : list Event :=
  [ Mkdir p;
    Write (Posix.join p "/depth_prediction.ply")
      (DepthPointCloud (depth results) (intrinsic results));
    Write (Posix.join p "depth_map.png")
      (DepthImage (depth results) (intrinsic results));
    Write (Posix.join p "detection.png")
      (DetectionImage (input results) (instance results));
    Write (Posix.join p "projection.ply")
      (PointCloud (Sparse.spatial (projection results))) ].

Definition sparse_event (results : Results) (p : Posix.Path) : Event :=
  Write (Posix.join p "sparse_coordinates.ply")
    (PointCloud (Sparse.spatial (geometry results))).

Definition last_events (results : Results) (g : Grids) (p : Posix.Path)
  : list Event :=
  let points := surface_points (surface g) (iso g) in
  [ sparse_event results p;
    Write (Posix.join p "points_geometry.ply") (PointCloud points);
    Write (Posix.join p "surface_pcd.ply") (SemanticPointCloud points);
    Write (Posix.join p "surface_pcd.ply") (SemanticPointCloud points);
    Write (Posix.join p "mesh_geometry.ply")
      (DistanceField (Tensor.squeeze (surface g)) None);
    Write (Posix.join p "mesh_semantics.ply")
      (DistanceField (Tensor.squeeze (surface g))
         (Some (Tensor.squeeze (semantics g))));
    Write (Posix.join p "mesh_instances.ply")
      (DistanceField (Tensor.squeeze (surface g))
         (Some (Tensor.squeeze (instances g)))) ].

(** The nine files the exporter names below the output directory. *)
Definition output_names : list string :=
  [ "depth_map.png"; "detection.png"; "projection.ply";
    "sparse_coordinates.ply"; "points_geometry.ply"; "surface_pcd.ply";
    "mesh_geometry.ply"; "mesh_semantics.ply"; "mesh_instances.ply" ].

(** Those of them that are written after the surface is cut at the iso
    value. *)
Definition surface_names : list string :=
  [ "points_geometry.ply"; "surface_pcd.ply";
    "mesh_geometry.ply"; "mesh_semantics.ply"; "mesh_instances.ply" ].

(** What was written to the path [p], in order. *)
Definition written_to (p : Posix.Path) (tr : list Event) : list Artifact :=
  flat_map (fun e =>
              match e with
              | Write p' a => if Posix.Path_eqb p' p then [a] else []
              | Mkdir _ => []
              end) tr.

(** The steps of [main] around the intrinsic matrix: [load] is the
    device, the model with its checkpoint and the input image (lines 24
    to 48), [inference] the frustum mask and the forward pass (lines 56
    to 61); each gives its result or fails. *)
Variable literal_eval : string -> option value.
Variable load_cfg : string -> Result dict.
Variable deprecated_keys : list string.
Variable renamed_keys : list string.
Variable new_allowed : list string -> bool.
Variable Loaded : Type.
Variable load : Inference.Opts -> Result Loaded.
Variable inference : Loaded -> Inference.Matrix -> Result Results.

(** [main(opts)] on the global [config]: the events and the outcome. *)
Definition main (o : Inference.Opts) (config : Cfg) : IO unit :=
  config <~ lift (Inference.configure_inference literal_eval load_cfg
                    deprecated_keys renamed_keys new_allowed o config) ;;
  model_and_image <~ lift (load o) ;;
  front3d_intrinsic <~ lift (Inference.prepare_intrinsic config) ;;
  results <~ lift (inference model_and_image front3d_intrinsic) ;;
  output_dir <~ lift (getattr config "OUTPUT_DIR") ;;
  visualize_results config results output_dir.

End Exporter.

End Exporter.

(** ** A small configuration and results bundle to run the driver on *)

Module Sample.

Import Yacs.

(** The literals the sample needs: booleans and [None]. *)
Definition literal_eval (s : string) : option value :=
  if String.eqb s "True" then Some (VBool true)
  else if String.eqb s "False" then Some (VBool false)
  else if String.eqb s "None" then Some VNone
  else None.

(** The defaults, with a grid of 2 x 1 x 2 voxels. *)
Definition config_with (trunc : Q) : Cfg :=
  Node
    [ ("OUTPUT_DIR", Leaf (VStr "output"));
      ("MODEL",
        Node
          [ ("FRUSTUM3D",
              Node
                [ ("IS_LEVEL_64", Leaf (VBool true));
                  ("IS_LEVEL_128", Leaf (VBool true));
                  ("IS_LEVEL_256", Leaf (VBool true));
                  ("FIX", Leaf (VBool false));
                  ("GRID_DIMENSIONS", Leaf (VList [VInt 2; VInt 1; VInt 2]));
                  ("TRUNCATION", Leaf (VFloat trunc));
                  ("ISO_VALUE", Leaf (VFloat 1)) ]);
            ("PROJECTION",
              Node
                [ ("INTRINSIC",
                    Leaf (VList
                            [ VList [VFloat (2775 # 10); VInt 0; VInt 160];
                              VList [VInt 0; VFloat (2775 # 10); VInt 120];
                              VList [VInt 0; VInt 0; VInt 1] ])) ]) ]) ].

Definition config : Cfg := config_with 3.

(** The same with an iso value that is no number. *)
Definition config_without_iso : Cfg :=
  Eval vm_compute in
    match setattr_path config ["MODEL"; "FRUSTUM3D"] "ISO_VALUE" (Leaf VNone) with
    | Ok c => c
    | Raise _ => Leaf VNone
    end.

(** A configuration file that switches a training level on and the
    fixed mode off, and names an output directory. *)
Definition file : dict :=
  [ ("MODEL",
      Node
        [ ("FRUSTUM3D",
            Node
              [ ("IS_LEVEL_64", Leaf (VBool true));
                ("FIX", Leaf (VStr "False")) ]) ]);
    ("OUTPUT_DIR", Leaf (VStr "from_file")) ].

Definition load_cfg (path : string) : Result dict :=
  if String.eqb path "configs/front3d_sample.yaml" then Ok file
  else Raise FileNotFoundError.

(** A command line whose overrides set a training level, the fixed mode
    and the output directory. *)
Definition opts : Inference.Opts :=
  Inference.mkOpts "data/front3d-sample/rgb_0007.png" "output/sample_0007/"
    "configs/front3d_sample.yaml" "data/panoptic_front3d_v2.pth"
    [ "MODEL.FRUSTUM3D.IS_LEVEL_256"; "True";
      "MODEL.FRUSTUM3D.FIX"; "False";
      "OUTPUT_DIR"; "elsewhere" ].

Definition no_new_keys (key_list : list string) : bool := false.

(** The sample configuration on its way through [configure_inference]:
    with the output directory of the command line, after the file, after
    the override list. *)
Definition with_output : Cfg :=
  Eval vm_compute in
    match setattr config "OUTPUT_DIR" (Leaf (VStr (Inference.output opts))) with
    | Ok c => c
    | Raise _ => Leaf VNone
    end.

Definition after_file : Cfg :=
  Eval vm_compute in
    match merge_from_file literal_eval load_cfg [] no_new_keys with_output
            (Inference.config_file opts) with
    | Ok c => c
    | Raise _ => Leaf VNone
    end.

Definition after_list : Cfg :=
  Eval vm_compute in
    match merge_from_list literal_eval [] [] after_file (Inference.opts opts) with
    | Ok c => c
    | Raise _ => Leaf VNone
    end.

(** The same command line with an override that lacks its value. *)
Definition odd_opts : Inference.Opts :=
  Inference.mkOpts (Inference.input opts) (Inference.output opts)
    (Inference.config_file opts) (Inference.model opts)
    [ "MODEL.FRUSTUM3D.FIX"; "False"; "OUTPUT_DIR" ].

(** Geometry with a voxel below the iso value, one at it and one above. *)
Definition geometry : Sparse.t :=
  Sparse.mk [ (0, 0, 0, 0); (0, 1, 0, 0); (0, 1, 0, 1) ]%Z
            [ 1 # 2; 1; 2 ]%Q.

Definition empty : Sparse.t := Sparse.mk [] [].

Definition results : Exporter.Results unit :=
  Exporter.mkResults tt tt tt tt geometry geometry empty empty.

Definition empty_results : Exporter.Results unit :=
  Exporter.mkResults tt tt tt tt empty empty empty empty.

Definition load (o : Inference.Opts) : Result unit := Ok tt.

Definition inference (model_and_image : unit)
    (front3d_intrinsic : Inference.Matrix) : Result (Exporter.Results unit) :=
  Ok results.

End Sample.

(** * Properties of the robust regression loss *)

Unset Implicit Arguments.

Section LossFacts.

Import Loss.
Local Open Scope Q_scope.

Lemma Qltb_true (x y : Q) : Qltb x y = true <-> x < y.
Proof.
  unfold Qltb. rewrite negb_true_iff.
  split; intro H.
  - apply Qnot_le_lt. intro L. apply Qle_bool_iff in L. congruence.
  - destruct (Qle_bool y x) eqn:E; [|reflexivity].
    apply Qle_bool_iff in E. exfalso. apply (Qlt_not_le _ _ H E).
Qed.

Lemma Qltb_false (x y : Q) : Qltb x y = false <-> y <= x.
Proof.
  unfold Qltb. rewrite negb_false_iff. apply Qle_bool_iff.
Qed.

Lemma quadratic_at_beta (beta : Q) :
  0 < beta -> quadratic beta beta == (1 # 2) * beta.
Proof.
  intro H. unfold quadratic. simpl. field. lra.
Qed.

Lemma linear_at_beta (beta : Q) : linear beta beta == (1 # 2) * beta.
Proof.
  unfold linear. lra.
Qed.



(** Below the threshold the quadratic branch stays within [beta - n] of
    the common boundary value. *)
Lemma quadratic_near_boundary (beta n : Q) :
  0 < beta -> 0 <= n -> n < beta ->
  0 <= (1 # 2) * beta - quadratic beta n <= beta - n.
Proof.
  intros Hb Hn Hlt. unfold quadratic. simpl.
  assert (E : (1 # 2) * beta - (1 # 2) * (n * n) / beta
              == (beta - n) * ((beta + n) / (2 * beta))) by (field; lra).
  rewrite E.
  assert (F0 : 0 <= (beta + n) / (2 * beta)).
  { apply Qle_shift_div_l; lra. }
  assert (F1 : (beta + n) / (2 * beta) <= 1).
  { apply Qle_shift_div_r; lra. }
  split; nra.
Qed.



Lemma where_loss_nonpositive_beta (beta n : Q) :
  beta <= 0 -> 0 <= n -> where_loss beta n = linear beta n.
Proof.
  intros Hb Hn. unfold where_loss.
  assert (E : Qltb n beta = false) by (apply Qltb_false; lra).
  now rewrite E.
Qed.






Lemma broadcast_equal_length (f : Q -> Q -> Q) (a b : Tensor) :
  length a = length b -> broadcast f a b = Ok (zip_with f a b).
Proof.
  intro E. unfold broadcast. rewrite E, Nat.eqb_refl. reflexivity.
Qed.




Lemma losses_nonpositive_beta (beta : Q) (a b : Tensor) :
  beta <= 0 ->
  losses beta a b = zip_with (fun x t => linear beta (Qabs (x - t))) a b.
Proof.
  intro Hb. unfold losses. revert b.
  induction a as [| x a IH]; intros [| t b]; cbn [map zip_with]; auto.
  rewrite IH. f_equal. apply where_loss_nonpositive_beta; auto.
  apply Qabs_nonneg.
Qed.

Lemma reconstruction_loss_equal_length (a b : Tensor) (beta : Q) (avg : bool) :
  length a = length b ->
  reconstruction_loss a b beta avg
  = Ok (if avg then mean (losses beta a b) else Num (sum (losses beta a b))).
Proof.
  intro E. unfold reconstruction_loss.
  rewrite broadcast_equal_length by assumption. simpl.
  fold (losses beta a b). now destruct avg.
Qed.



(** In exact arithmetic the quadratic and the linear branch take the
    same value [0.5 * beta] at the boundary [|input - target| = beta],
    for every [beta > 0], the elementwise loss has that value there, and
    it is continuous at the boundary: its distance to [0.5 * beta] is at
    most the distance of [|input - target|] to [beta]. *)
Lemma exact_branches_agree_at_beta (beta : Q) :
  0 < beta ->
  quadratic beta beta == (1 # 2) * beta
  /\ linear beta beta == (1 # 2) * beta
  /\ (forall x t, Qabs (x - t) == beta -> elementwise beta x t == (1 # 2) * beta)
  /\ (forall x t,
        Qabs (elementwise beta x t - (1 # 2) * beta)
        <= Qabs (Qabs (x - t) - beta)).
Proof.
  intro Hb. split; [now apply quadratic_at_beta |].
  split; [apply linear_at_beta |]. split.
  - intros x t E. unfold elementwise, where_loss.
    assert (F : Qltb (Qabs (x - t)) beta = false) by (apply Qltb_false; lra).
    rewrite F. unfold linear. lra.
  - intros x t. unfold elementwise, where_loss.
    pose proof (Qabs_nonneg (x - t)) as Hn.
    generalize dependent (Qabs (x - t)). intros n Hn.
    destruct (Qltb n beta) eqn:E.
    + apply Qltb_true in E.
      destruct (quadratic_near_boundary _ _ Hb Hn E) as [L U].
      rewrite (Qabs_neg (quadratic _ _ - _)) by lra.
      rewrite (Qabs_neg (n - beta)) by lra. lra.
    + apply Qltb_false in E. unfold linear.
      rewrite (Qabs_pos (n - beta)) by lra.
      rewrite Qabs_pos by lra. lra.
Qed.


(** C5, as the code has it. For every [beta <= 0] and tensors of the
    same size no error is raised: no element is below the threshold, and
    the loss is the mean or the sum of [|input - target| - 0.5 * beta]. *)
Theorem loss_nonpositive_beta_returns (input target : Tensor) (beta : Q)
    (size_average : bool) :
  beta <= 0 ->
  length input = length target ->
  let loss := zip_with (fun x t => linear beta (Qabs (x - t))) input target in
  reconstruction_loss input target beta size_average
  = Ok (if size_average then mean loss else Num (sum loss)).
Proof.
  intros Hb E loss.
  rewrite reconstruction_loss_equal_length by assumption.
  now rewrite losses_nonpositive_beta by assumption.
Qed.

Lemma loss_nonpositive_beta_returns_witness :
  exists q, reconstruction_loss [1; 3] [0; 1] (- (2 # 1)) false = Ok (Num q)
            /\ q == 5.
Proof.
  assert (Hb : - (2 # 1) <= 0) by (intro H; discriminate H).
  assert (E : length [1; 3] = length [0; 1]) by reflexivity.
  eexists. split.
  - exact (loss_nonpositive_beta_returns [1; 3] [0; 1] _ false Hb E).
  - reflexivity.
Defined.

(** C5 as stated fails: with [beta = 0] the loss of one element is
    returned, and nothing is raised. *)
Lemma loss_beta_zero_returns_a_value :
  0 <= 0
  /\ (exists q, reconstruction_loss [1] [0] 0 true = Ok (Num q) /\ q == 1)
  /\ ~ (exists e, reconstruction_loss [1] [0] 0 true = Raise e).
Proof.
  split; [apply Qle_refl |]. split.
  - eexists. split; [reflexivity | reflexivity].
  - intros [e H]. discriminate H.
Qed.

End LossFacts.

(** * The loss on [float64] tensors *)

Section Loss64Facts.

Import PrimFloat FloatOps FloatAxioms SpecFloat.
Import Loss64.
Local Open Scope float_scope.

(** No number is below itself, and what is not a number is below
    nothing. *)
Lemma SFltb_irrefl (f : spec_float) : SFltb f f = false.
Proof.
  unfold SFltb. destruct f as [s | s | | s m e]; cbn [SFcompare].
  - reflexivity.
  - now destruct s.
  - reflexivity.
  - rewrite Z.compare_refl, Pos.compare_cont_refl. now destruct s.
Qed.

Lemma ltb_irrefl (b : float) : (b <? b) = false.
Proof.
  rewrite ltb_spec. apply SFltb_irrefl.
Qed.

Lemma where_loss_at_beta (beta : float) :
  where_loss beta beta = linear beta beta.
Proof.
  unfold where_loss. now rewrite ltb_irrefl.
Qed.















(** C2, as the code has it. In exact arithmetic the two branches meet
    at the boundary: for every [beta > 0] the expressions
    [0.5 * beta ** 2 / beta] and [beta - 0.5 * beta] are both
    [0.5 * beta], the elementwise loss has that value at
    [|input - target| = beta], and its distance to [0.5 * beta] is at
    most the distance of [|input - target|] to [beta]. On [float64]
    tensors the loss at [|input - target| = beta] is the linear
    expression as the floats compute it, since [n < beta] is false
    there; with the default [beta = 1. / 9] the quadratic expression
    computes the same float. *)
Theorem loss_branches_at_beta (beta : Q) (b x t : float) :
  (0 < beta)%Q ->
  abs (x - t) = b ->
  (Loss.quadratic beta beta == (1 # 2) * beta
   /\ Loss.linear beta beta == (1 # 2) * beta
   /\ (forall x t, Qabs (x - t) == beta ->
         Loss.elementwise beta x t == (1 # 2) * beta)
   /\ (forall x t,
         Qabs (Loss.elementwise beta x t - (1 # 2) * beta)
         <= Qabs (Qabs (x - t) - beta)))%Q
  /\ elementwise b x t = linear b b
  /\ quadratic default_beta default_beta = linear default_beta default_beta.
Proof.
  intros Hb E. split; [now apply exact_branches_agree_at_beta |]. split.
  - unfold elementwise. rewrite E. apply where_loss_at_beta.
  - reflexivity.
Qed.

Lemma loss_branches_at_beta_witness :
  (Loss.quadratic Loss.default_beta Loss.default_beta
   == (1 # 2) * Loss.default_beta)%Q
  /\ elementwise 0.25 1 0.75 = linear 0.25 0.25.
Proof.
  assert (Hb : (0 < Loss.default_beta)%Q) by reflexivity.
  assert (E : abs (1 - 0.75) = 0.25) by reflexivity.
  destruct (loss_branches_at_beta Loss.default_beta 0.25 1 0.75 Hb E)
    as [[A _] [B _]].
  split; [exact A | exact B].
Defined.

(** C2 as stated fails on floats: at [beta = 0.1] the quadratic
    expression computes [0.05000000000000001] and the linear one
    [0.05], which is [0.5 * beta]. *)
Lemma loss_branches_differ_in_binary64 :
  (0 <? 0.1) = true
  /\ quadratic 0.1 0.1 = 0.05000000000000001
  /\ linear 0.1 0.1 = 0.05
  /\ 0.5 * 0.1 = 0.05
  /\ (quadratic 0.1 0.1 =? linear 0.1 0.1) = false
  /\ (quadratic 0.1 0.1 =? 0.5 * 0.1) = false.
Proof.
  repeat split.
Qed.




End Loss64Facts.

(** * Properties of the configuration *)

Section YacsFacts.

Import Yacs.

Lemma lookup_set_item_same (k : string) (c : Cfg) (d : dict) :
  lookup k (set_item k c d) = Some c.
Proof.
  induction d as [| [k' c'] d IH]; simpl.
  - now rewrite String.eqb_refl.
  - destruct (String.eqb k k') eqn:E; simpl; rewrite E; auto.
Qed.

Lemma lookup_set_item_other (k k' : string) (c : Cfg) (d : dict) :
  k <> k' -> lookup k (set_item k' c d) = lookup k d.
Proof.
  intro N. pose proof (proj2 (String.eqb_neq k k') N) as F.
  induction d as [| [k2 c2] d IH]; simpl.
  - now rewrite F.
  - destruct (String.eqb k' k2) eqn:E; simpl.
    + apply String.eqb_eq in E. subst k2. now rewrite F.
    + now rewrite IH.
Qed.

Lemma getattr_setattr_same (obj obj' : Cfg) (name : string) (c : Cfg) :
  setattr obj name c = Ok obj' -> getattr obj' name = Ok c.
Proof.
  destruct obj; simpl; intro H; inversion H; subst; simpl.
  now rewrite lookup_set_item_same.
Qed.

Lemma getattr_setattr_other (obj obj' : Cfg) (name name' : string) (c : Cfg) :
  name' <> name ->
  setattr obj name c = Ok obj' -> getattr obj' name' = getattr obj name'.
Proof.
  intro N. destruct obj; simpl; intro H; inversion H; subst; simpl.
  now rewrite lookup_set_item_other.
Qed.

(** After [obj.path.name = c] the attribute reads [c]. *)
Lemma getattr_setattr_path_same (path : list string) :
  forall (obj obj' : Cfg) (name : string) (c : Cfg),
    setattr_path obj path name c = Ok obj' ->
    getattr_path obj' (path ++ [name]) = Ok c.
Proof.
  induction path as [| a path IH]; intros obj obj' name c H; simpl in *.
  - erewrite getattr_setattr_same by eassumption. reflexivity.
  - destruct (getattr obj a) as [inner |] eqn:G; simpl in H; [| discriminate].
    destruct (setattr_path inner path name c) as [inner' |] eqn:S;
      simpl in H; [| discriminate].
    destruct obj as [| kids]; [discriminate |].
    inversion H; subst. simpl. rewrite lookup_set_item_same. simpl.
    eapply IH; eassumption.
Qed.

(** ... and the other attributes of the same node read as before. *)
Lemma getattr_setattr_path_other (path : list string) :
  forall (obj obj' : Cfg) (name name' : string) (c : Cfg),
    name' <> name ->
    setattr_path obj path name c = Ok obj' ->
    getattr_path obj' (path ++ [name']) = getattr_path obj (path ++ [name']).
Proof.
  induction path as [| a path IH]; intros obj obj' name name' c N H; simpl in *.
  - erewrite getattr_setattr_other by eassumption. reflexivity.
  - destruct (getattr obj a) as [inner |] eqn:G; simpl in H; [| discriminate].
    destruct (setattr_path inner path name c) as [inner' |] eqn:S;
      simpl in H; [| discriminate].
    destruct obj as [| kids]; [discriminate |].
    inversion H; subst. simpl in *. rewrite lookup_set_item_same. simpl.
    destruct (lookup a kids); [| discriminate].
    inversion G; subst. simpl.
    eapply IH; eassumption.
Qed.

(** An assignment below the node [a] leaves every other top-level
    attribute alone. *)
Lemma getattr_setattr_path_outside (a : string) (path : list string)
    (obj obj' : Cfg) (name other : string) (c : Cfg) :
  other <> a ->
  setattr_path obj (a :: path) name c = Ok obj' ->
  getattr obj' other = getattr obj other.
Proof.
  intros N H. simpl in H.
  destruct (getattr obj a) as [inner |]; simpl in H; [| discriminate].
  destruct (setattr_path inner path name c) as [inner' |];
    simpl in H; [| discriminate].
  destruct obj as [| kids]; [discriminate |].
  inversion H; subst. simpl. now rewrite lookup_set_item_other.
Qed.

End YacsFacts.

Section ConfigureFacts.

Import Yacs Inference.

Variable literal_eval : string -> option value.
Variable load_cfg : string -> Result dict.
Variable deprecated_keys : list string.
Variable renamed_keys : list string.
Variable new_allowed : list string -> bool.

Local Abbreviation configure :=
  (configure_inference literal_eval load_cfg deprecated_keys renamed_keys
     new_allowed).

(** C1. Whatever the base configuration, the configuration file and the
    override list are, the configuration that [configure_inference]
    leaves has [MODEL.FRUSTUM3D.IS_LEVEL_64], [IS_LEVEL_128] and
    [IS_LEVEL_256] at [False] and [MODEL.FRUSTUM3D.FIX] at [True]: the
    four assignments come after both merges. *)
Theorem configure_inference_forces_flags (o : Opts) (config config' : Cfg) :
  configure o config = Ok config' ->
  getattr_path config' ["MODEL"; "FRUSTUM3D"; "IS_LEVEL_64"] = Ok (Leaf (VBool false))
  /\ getattr_path config' ["MODEL"; "FRUSTUM3D"; "IS_LEVEL_128"] = Ok (Leaf (VBool false))
  /\ getattr_path config' ["MODEL"; "FRUSTUM3D"; "IS_LEVEL_256"] = Ok (Leaf (VBool false))
  /\ getattr_path config' ["MODEL"; "FRUSTUM3D"; "FIX"] = Ok (Leaf (VBool true)).
Proof.
  unfold configure_inference. intro H.
  destruct (setattr config "OUTPUT_DIR" _) as [c0 |]; [| discriminate].
  cbn [bind] in H.
  destruct (merge_from_file _ _ _ _ c0 _) as [c1 |]; [| discriminate].
  cbn [bind] in H.
  destruct (merge_from_list _ _ _ c1 _) as [c2 |]; [| discriminate].
  cbn [bind] in H.
  destruct (setattr_path c2 FRUSTUM3D "IS_LEVEL_64" _) as [c3 |] eqn:S3;
    [| discriminate].
  cbn [bind] in H.
  destruct (setattr_path c3 FRUSTUM3D "IS_LEVEL_128" _) as [c4 |] eqn:S4;
    [| discriminate].
  cbn [bind] in H.
  destruct (setattr_path c4 FRUSTUM3D "IS_LEVEL_256" _) as [c5 |] eqn:S5;
    [| discriminate].
  cbn [bind] in H.
  pose proof (getattr_setattr_path_same _ _ _ _ _ S3) as G3.
  pose proof (getattr_setattr_path_same _ _ _ _ _ S4) as G4.
  pose proof (getattr_setattr_path_same _ _ _ _ _ S5) as G5.
  pose proof (getattr_setattr_path_same _ _ _ _ _ H) as G6.
  change (FRUSTUM3D ++ ["IS_LEVEL_64"])%list
    with ["MODEL"; "FRUSTUM3D"; "IS_LEVEL_64"] in G3.
  change (FRUSTUM3D ++ ["IS_LEVEL_128"])%list
    with ["MODEL"; "FRUSTUM3D"; "IS_LEVEL_128"] in G4.
  change (FRUSTUM3D ++ ["IS_LEVEL_256"])%list
    with ["MODEL"; "FRUSTUM3D"; "IS_LEVEL_256"] in G5.
  change (FRUSTUM3D ++ ["FIX"])%list
    with ["MODEL"; "FRUSTUM3D"; "FIX"] in G6.
  assert (keep : forall name name' c a b,
             name' <> name ->
             setattr_path a FRUSTUM3D name c = Ok b ->
             getattr_path b ["MODEL"; "FRUSTUM3D"; name']
             = getattr_path a ["MODEL"; "FRUSTUM3D"; name']).
  { intros name name' c a b N S.
    exact (getattr_setattr_path_other FRUSTUM3D _ _ _ _ _ N S). }
  assert (N1 : "IS_LEVEL_64" <> "IS_LEVEL_128") by discriminate.
  assert (N2 : "IS_LEVEL_64" <> "IS_LEVEL_256") by discriminate.
  assert (N3 : "IS_LEVEL_64" <> "FIX") by discriminate.
  assert (N4 : "IS_LEVEL_128" <> "IS_LEVEL_256") by discriminate.
  assert (N5 : "IS_LEVEL_128" <> "FIX") by discriminate.
  assert (N6 : "IS_LEVEL_256" <> "FIX") by discriminate.
  repeat split.
  - rewrite (keep _ _ _ _ _ N3 H), (keep _ _ _ _ _ N2 S5), (keep _ _ _ _ _ N1 S4).
    exact G3.
  - rewrite (keep _ _ _ _ _ N5 H), (keep _ _ _ _ _ N4 S5). exact G4.
  - rewrite (keep _ _ _ _ _ N6 H). exact G5.
  - exact G6.
Qed.

End ConfigureFacts.

Section MergeFacts.

Import Yacs.

Variable literal_eval : string -> option value.
Variable load_cfg : string -> Result dict.
Variable deprecated_keys : list string.
Variable renamed_keys : list string.
Variable new_allowed : list string -> bool.

Local Abbreviation decode := (decode_cfg_value literal_eval).
Local Abbreviation K := "OUTPUT_DIR".

Lemma check_and_coerce_leaves (r old : value) (c : Cfg) :
  check_and_coerce (Leaf r) (Leaf old) = Ok c ->
  exists w, c = Leaf w /\ accepted_as r w.
Proof.
  intro H.
  assert (L : exists w, c = Leaf w).
  { unfold check_and_coerce in H.
    destruct (pytype_eqb _ _); [inversion H; eauto |].
    destruct (_ || _); [inversion H; eauto |].
    destruct r; try discriminate;
      destruct (type_of (Leaf old)); try discriminate; inversion H; eauto. }
  destruct L as [w ->]. exists w. split; [reflexivity |]. now exists old.
Qed.

Lemma check_and_coerce_node_into_leaf (kids : dict) (old : value) :
  check_and_coerce (Node kids) (Leaf old) = Raise ValueError.
Proof.
  destruct old; reflexivity.
Qed.

Lemma accepted_as_str (s : string) (w : value) :
  accepted_as (VStr s) w -> w = VStr s.
Proof.
  intros [old H]. destruct old; vm_compute in H; congruence.
Qed.

Lemma split_dot_nonempty (s : string) : split_dot s <> [].
Proof.
  destruct s as [| c s]; simpl; [discriminate |].
  destruct (Ascii.eqb c "."); [discriminate |].
  destruct (split_dot s); discriminate.
Qed.

Lemma split_dot_single (s h : string) : split_dot s = [h] -> h = s.
Proof.
  revert h. induction s as [| c s IH]; intros h H; simpl in H.
  - congruence.
  - destruct (Ascii.eqb c ".").
    + inversion H as [[A B]]. now apply split_dot_nonempty in B.
    + pose proof (split_dot_nonempty s) as NE.
      destruct (split_dot s) as [| h' t]; [congruence |].
      inversion H; subst. f_equal. now apply IH.
Qed.

Lemma assign_step (kids : dict) (k1 k2 : string) (rest : list string) (v : string) :
  assign literal_eval (Node kids) (k1 :: k2 :: rest) v
  = match lookup k1 kids with
    | None => Raise AssertionError
    | Some d' =>
        d'' <- assign literal_eval d' (k2 :: rest) v ;;
        Ok (Node (set_item k1 d'' kids))
    end.
Proof.
  reflexivity.
Qed.

(** One assignment of [merge_from_list] below a root whose [OUTPUT_DIR]
    is a leaf: either the key is [OUTPUT_DIR] and the leaf is replaced by
    what the type check accepts, or it stays. *)
Lemma assign_output_dir (kids : dict) (keys : list string) (v : string)
    (c' : Cfg) (w0 : value) :
  assign literal_eval (Node kids) keys v = Ok c' ->
  lookup K kids = Some (Leaf w0) ->
  (keys = [K]
   /\ exists w, getattr c' K = Ok (Leaf w) /\ accepted_as (decode (VStr v)) w)
  \/ (keys <> [K] /\ getattr c' K = Ok (Leaf w0)).
Proof.
  intros H L.
  destruct keys as [| k1 [| k2 rest]];
    [discriminate | cbn [assign] in H | rewrite assign_step in H].
  - destruct (lookup k1 kids) as [old |] eqn:E; [| discriminate].
    destruct (check_and_coerce _ old) as [value |] eqn:C; [| discriminate].
    cbn [bind] in H. inversion H; subst c'. clear H.
    destruct (string_dec k1 K) as [-> | N].
    + left. split; [reflexivity |].
      rewrite L in E. inversion E; subst old.
      destruct (check_and_coerce_leaves _ _ _ C) as [w [-> A]].
      exists w. split; [| exact A].
      cbn [getattr]. now rewrite lookup_set_item_same.
    + right. split; [congruence |].
      cbn [getattr]. rewrite lookup_set_item_other by congruence. now rewrite L.
  - destruct (lookup k1 kids) as [d' |] eqn:E; [| discriminate].
    destruct (assign literal_eval d' (k2 :: rest) v) as [d'' |] eqn:A;
      [| discriminate].
    cbn [bind] in H. inversion H; subst c'. clear H.
    right. split; [congruence |].
    destruct (string_dec k1 K) as [-> | N].
    + rewrite L in E. inversion E; subst d'. simpl in A. discriminate A.
    + cbn [getattr]. rewrite lookup_set_item_other by congruence. now rewrite L.
Qed.

Lemma getattr_leaf_inv (c : Cfg) (k : string) (x : Cfg) :
  getattr c k = Ok x -> exists kids, c = Node kids /\ lookup k kids = Some x.
Proof.
  destruct c as [| kids]; simpl; [discriminate |].
  destruct (lookup k kids) eqn:E; [| discriminate].
  intro H. inversion H; subst. eauto.
Qed.

Lemma merge_pair_output_dir (self self' : Cfg) (k v : string) (w0 : value) :
  mem K deprecated_keys = false ->
  merge_pair literal_eval deprecated_keys renamed_keys self (k, v) = Ok self' ->
  getattr self K = Ok (Leaf w0) ->
  exists w, getattr self' K = Ok (Leaf w)
            /\ if String.eqb K k then accepted_as (decode (VStr v)) w
               else w = w0.
Proof.
  intros D H G. unfold merge_pair in H.
  destruct (String.eqb K k) eqn:E.
  - apply String.eqb_eq in E. subst k. rewrite D in H.
    destruct (mem K renamed_keys); [discriminate |].
    destruct (getattr_leaf_inv _ _ _ G) as [kids [-> L]].
    destruct (assign_output_dir _ _ _ _ _ H L) as [[_ X] | [X _]]; [exact X |].
    now contradiction X.
  - apply String.eqb_neq in E.
    destruct (mem k deprecated_keys).
    { inversion H; subst. eauto. }
    destruct (mem k renamed_keys); [discriminate |].
    destruct (getattr_leaf_inv _ _ _ G) as [kids [-> L]].
    destruct (assign_output_dir _ _ _ _ _ H L) as [[X _] | [_ X]]; [| eauto].
    apply split_dot_single in X. congruence.
Qed.

Lemma merge_pairs_output_dir (l : list (string * string)) :
  forall (self self' : Cfg) (w0 : value),
    mem K deprecated_keys = false ->
    merge_pairs literal_eval deprecated_keys renamed_keys self l = Ok self' ->
    getattr self K = Ok (Leaf w0) ->
    exists w, getattr self' K = Ok (Leaf w)
              /\ match last_value K l with
                 | Some v => accepted_as (decode (VStr v)) w
                 | None => w = w0
                 end.
Proof.
  induction l as [| [k v] rest IH]; intros self self' w0 D H G; cbn [merge_pairs] in H.
  - inversion H; subst. exists w0. split; [assumption | reflexivity].
  - destruct (merge_pair _ _ _ self (k, v)) as [s1 |] eqn:M; [| discriminate].
    cbn [bind] in H.
    destruct (merge_pair_output_dir _ _ _ _ _ D M G) as [w1 [G1 A1]].
    destruct (IH _ _ _ D H G1) as [w [Gw Aw]].
    exists w. split; [exact Gw |]. cbn [last_value].
    destruct (last_value K rest); [exact Aw |].
    subst w. revert A1. destruct (String.eqb K k); intro A1; exact A1.
Qed.

Lemma merge_a_into_b_nodes (ka : dict) :
  forall (kb : dict) (key_list : list string),
    merge_a_into_b literal_eval deprecated_keys new_allowed (Node ka) (Node kb) key_list
    = (kb' <- merge_items literal_eval deprecated_keys new_allowed ka kb key_list ;;
       Ok (Node kb')).
Proof.
  induction ka as [| [k v_] rest IH]; intros kb key_list; [reflexivity |].
  cbn [merge_a_into_b merge_items].
  match goal with
  | |- context [bind ?step _] =>
      match step with
      | match lookup k kb with _ => _ end => destruct step as [kb1 |] eqn:S
      end
  end; cbn [bind]; [| reflexivity].
  specialize (IH kb1 key_list). cbn [merge_a_into_b] in IH. exact IH.
Qed.

Lemma merge_items_output_dir (ka : dict) :
  forall (kb kb' : dict) (w0 : value),
    merge_items literal_eval deprecated_keys new_allowed ka kb [] = Ok kb' ->
    lookup K kb = Some (Leaf w0) ->
    exists w, lookup K kb' = Some (Leaf w)
              /\ match last_entry K ka with
                 | Some (Leaf x) => accepted_as (decode x) w
                 | Some (Node _) => False
                 | None => w = w0
                 end.
Proof.
  induction ka as [| [k v_] rest IH]; intros kb kb' w0 H L; cbn [merge_items] in H.
  - inversion H; subst. exists w0. split; [assumption | reflexivity].
  - match type of H with
    | bind ?step _ = _ => destruct step as [kb1 |] eqn:S
    end; cbn [bind] in H; [| discriminate].
    assert (X : exists w1, lookup K kb1 = Some (Leaf w1)
                  /\ if String.eqb K k
                     then match v_ with
                          | Leaf x => accepted_as (decode x) w1
                          | Node _ => False
                          end
                     else w1 = w0).
    { destruct (String.eqb K k) eqn:E.
      - apply String.eqb_eq in E. subst k. rewrite L in S.
        destruct v_ as [x | kids].
        + destruct (check_and_coerce _ _) as [v |] eqn:C; [| discriminate].
          cbn [bind] in S. inversion S; subst kb1.
          destruct (check_and_coerce_leaves _ _ _ C) as [w [-> A]].
          exists w. rewrite lookup_set_item_same. auto.
        + rewrite check_and_coerce_node_into_leaf in S. discriminate.
      - apply String.eqb_neq in E. exists w0. split; [| reflexivity].
        destruct (lookup k kb) as [old |].
        + destruct v_ as [x | kids].
          * destruct (check_and_coerce _ _) as [v |]; [| discriminate].
            cbn [bind] in S. inversion S; subst kb1.
            now rewrite lookup_set_item_other.
          * destruct (check_and_coerce _ _) as [v |]; [| discriminate].
            cbn [bind] in S.
            destruct (merge_a_into_b _ _ _ _ _ _) as [sub |]; [| discriminate].
            cbn [bind] in S. inversion S; subst kb1.
            now rewrite lookup_set_item_other.
        + destruct (new_allowed []).
          * inversion S; subst kb1. now rewrite lookup_set_item_other.
          * destruct (mem _ deprecated_keys); [| discriminate].
            inversion S; subst kb1. exact L. }
    destruct X as [w1 [L1 A1]].
    destruct (IH _ _ _ H L1) as [w [Lw Aw]].
    exists w. split; [exact Lw |]. cbn [last_entry].
    destruct (last_entry K rest) as [c |]; [exact Aw |].
    subst w. revert A1. destruct (String.eqb K k); intro A1; [| exact A1].
    destruct v_; [exact A1 | contradiction].
Qed.

End MergeFacts.

Section OutputDirFacts.

Import Yacs Inference Exporter.

Variable Blob : Type.
Variable dense_default : Q.
Variable literal_eval : string -> option value.
Variable load_cfg : string -> Result dict.
Variable deprecated_keys : list string.
Variable renamed_keys : list string.
Variable new_allowed : list string -> bool.
Variable Loaded : Type.
Variable load : Opts -> Result Loaded.
Variable inference : Loaded -> Matrix -> Result (Results Blob).

Local Abbreviation decode := (decode_cfg_value literal_eval).
Local Abbreviation K := "OUTPUT_DIR".
Local Abbreviation configure :=
  (configure_inference literal_eval load_cfg deprecated_keys renamed_keys
     new_allowed).

Lemma configure_inference_output_dir (o : Opts) (config config' : Cfg) :
  mem K deprecated_keys = false ->
  configure o config = Ok config' ->
  exists w,
    getattr config' K = Ok (Leaf w)
    /\ match last_value K (pairs (opts o)) with
       | Some v => accepted_as (decode (VStr v)) w
       | None =>
           forall file, load_cfg (config_file o) = Ok file ->
             match last_entry K file with
             | Some (Leaf x) => accepted_as (decode x) w
             | Some (Node _) => False
             | None => w = VStr (output o)
             end
       end.
Proof.
  intros D H. unfold configure_inference in H.
  destruct (setattr config K _) as [c0 |] eqn:S0; [| discriminate].
  cbn [bind] in H.
  destruct (merge_from_file _ _ _ _ c0 _) as [c1 |] eqn:M1; [| discriminate].
  cbn [bind] in H.
  destruct (merge_from_list _ _ _ c1 _) as [c2 |] eqn:M2; [| discriminate].
  cbn [bind] in H.
  destruct (setattr_path c2 FRUSTUM3D "IS_LEVEL_64" _) as [c3 |] eqn:S3;
    [| discriminate].
  cbn [bind] in H.
  destruct (setattr_path c3 FRUSTUM3D "IS_LEVEL_128" _) as [c4 |] eqn:S4;
    [| discriminate].
  cbn [bind] in H.
  destruct (setattr_path c4 FRUSTUM3D "IS_LEVEL_256" _) as [c5 |] eqn:S5;
    [| discriminate].
  cbn [bind] in H.
  assert (N : K <> "MODEL") by discriminate.
  assert (G : getattr config' K = getattr c2 K).
  { rewrite (getattr_setattr_path_outside _ _ _ _ _ _ _ N H).
    rewrite (getattr_setattr_path_outside _ _ _ _ _ _ _ N S5).
    rewrite (getattr_setattr_path_outside _ _ _ _ _ _ _ N S4).
    exact (getattr_setattr_path_outside _ _ _ _ _ _ _ N S3). }
  rewrite G. clear G H S3 S4 S5 c3 c4 c5.
  pose proof (getattr_setattr_same _ _ _ _ S0) as G0.
  destruct (getattr_leaf_inv _ _ _ G0) as [kids0 [-> L0]].
  unfold merge_from_file in M1.
  destruct (load_cfg (config_file o)) as [file |] eqn:F; [| discriminate].
  cbn [bind] in M1. rewrite merge_a_into_b_nodes in M1.
  destruct (merge_items _ _ _ file kids0 []) as [kb1 |] eqn:I; [| discriminate].
  cbn [bind] in M1. inversion M1; subst c1. clear M1.
  destruct (merge_items_output_dir _ _ _ _ _ _ _ I L0) as [w1 [L1 A1]].
  unfold merge_from_list in M2.
  destruct (assert _); [| discriminate]. cbn [bind] in M2.
  assert (G1 : getattr (Node kb1) K = Ok (Leaf w1)) by (cbn; now rewrite L1).
  destruct (merge_pairs_output_dir _ _ _ _ _ _ _ D M2 G1) as [w [Gw Aw]].
  exists w. split; [exact Gw |].
  destruct (last_value K (pairs (opts o))); [exact Aw |].
  subst w. intros file' F'. inversion F'; subst file'. exact A1.
Qed.

(** C10. [configure_inference] assigns [OUTPUT_DIR] from [--output]
    before the two merges. When the run of [configure_inference]
    succeeds (and [OUTPUT_DIR] is not registered as a deprecated key),
    the finalized [OUTPUT_DIR] is the value of the last [OUTPUT_DIR]
    pair of the override list, else the value of the [OUTPUT_DIR] entry
    of the configuration file, as the merge's type check accepted it, and
    the [--output] argument only when neither names the key; and it is
    this finalized value that [main] hands to [visualize_results] as the
    output directory. *)
Theorem output_dir_is_merged_value (o : Opts) (config config' : Cfg) :
  mem K deprecated_keys = false ->
  configure o config = Ok config' ->
  exists w,
    getattr config' K = Ok (Leaf w)
    /\ match last_value K (pairs (opts o)) with
       | Some v =>
           accepted_as (decode (VStr v)) w
           /\ (forall s, decode (VStr v) = VStr s -> w = VStr s)
       | None =>
           forall file, load_cfg (config_file o) = Ok file ->
             match last_entry K file with
             | Some (Leaf x) =>
                 accepted_as (decode x) w
                 /\ (forall s, decode x = VStr s -> w = VStr s)
             | Some (Node _) => False
             | None => w = VStr (output o)
             end
       end
    /\ (forall x m results tr,
          load o = Ok x ->
          prepare_intrinsic config' = Ok m ->
          inference x m = Ok results ->
          main dense_default literal_eval load_cfg deprecated_keys renamed_keys
            new_allowed load inference o config tr
          = visualize_results dense_default config' results (Leaf w) tr).
Proof.
  intros D H.
  destruct (configure_inference_output_dir _ _ _ D H) as [w [G A]].
  exists w. split; [exact G |]. split.
  - destruct (last_value K (pairs (opts o))) as [v |].
    + split; [exact A |]. intros s E. rewrite E in A.
      now apply accepted_as_str.
    + intros file F. specialize (A file F).
      destruct (last_entry K file) as [[x | kids] |]; auto.
      split; [exact A |]. intros s E. rewrite E in A.
      now apply accepted_as_str.
  - intros x m results tr L P I. unfold main, bindIO, lift.
    rewrite H, L, P, I, G. reflexivity.
Qed.

End OutputDirFacts.

Section TensorFacts.

Import Tensor.

Lemma indices_inside (shape : list nat) :
  forall idx, In idx (indices shape) <-> inside idx shape.
Proof.
  induction shape as [| d rest IH]; intro idx; cbn [indices].
  - split.
    + intros [<- | []]. constructor.
    + intro H. inversion H. now left.
  - rewrite in_flat_map. split.
    + intros [i [Hi Hm]]. apply in_map_iff in Hm. destruct Hm as [t [<- Ht]].
      apply in_seq in Hi. constructor; [lia | now apply IH].
    + intro H. inversion H as [| i d' t rest' Hi Ht]; subst.
      exists i. split; [apply in_seq; lia |].
      apply in_map. now apply IH.
Qed.

Lemma expand_contract (shape : list nat) :
  forall idx, inside idx shape -> expand shape (contract shape idx) = idx.
Proof.
  induction shape as [| d rest IH]; intros idx H; inversion H as [| i d' t rest' Hi Ht]; subst.
  - reflexivity.
  - cbn [expand contract]. destruct (Nat.eqb d 1) eqn:E.
    + apply Nat.eqb_eq in E. subst d.
      assert (i = O) by lia. subst i. f_equal. now apply IH.
    + cbn [expand]. f_equal. now apply IH.
Qed.

Lemma contract_inside (shape : list nat) :
  forall idx, inside idx shape -> inside (contract shape idx) (squeezed shape).
Proof.
  induction shape as [| d rest IH]; intros idx H; inversion H as [| i d' t rest' Hi Ht]; subst.
  - constructor.
  - cbn [contract squeezed filter]. destruct (Nat.eqb d 1); cbn [negb].
    + now apply IH.
    + constructor; [assumption | now apply IH].
Qed.

Lemma expand_inside (shape : list nat) :
  forall q, inside q (squeezed shape) ->
            inside (expand shape q) shape /\ contract shape (expand shape q) = q.
Proof.
  induction shape as [| d rest IH]; intros q H.
  - inversion H. split; [constructor | reflexivity].
  - cbn [squeezed filter] in H. cbn [expand].
    destruct (Nat.eqb d 1) eqn:E; cbn [negb] in H.
    + destruct (IH q H) as [A B]. apply Nat.eqb_eq in E. subst d.
      split; [constructor; [lia | exact A] |].
      cbn [contract]. exact B.
    + inversion H as [| i d' t rest' Hi Ht]; subst.
      destruct (IH t Ht) as [A B].
      split; [constructor; assumption |].
      cbn [contract]. rewrite E. now f_equal.
Qed.

(** The indices [squeeze] and [nonzero] give are the contracted indices
    of the true entries. *)
Lemma nonzero_squeeze (x : t bool) (q : list nat) :
  In q (nonzero (squeeze x))
  <-> exists idx, inside idx (shape x)
                  /\ q = contract (shape x) idx /\ at_ x idx = true.
Proof.
  unfold nonzero, squeeze. cbn [shape at_].
  rewrite filter_In, indices_inside. split.
  - intros [I A]. destruct (expand_inside _ _ I) as [J C].
    exists (expand (shape x) q). auto.
  - intros [idx [I [-> A]]]. split.
    + now apply contract_inside.
    + now rewrite expand_contract.
Qed.

Lemma contract_injective (shape idx idx' : list nat) :
  inside idx shape -> inside idx' shape ->
  contract shape idx = contract shape idx' -> idx = idx'.
Proof.
  intros I I' E.
  rewrite <- (expand_contract _ _ I), <- (expand_contract _ _ I'). now rewrite E.
Qed.

End TensorFacts.

(** * Properties of the exporter *)

Section PathFacts.

Import Posix.

Lemma join_depth_prediction (p : Path) :
  join p "/depth_prediction.ply" = mkPath Slash ["depth_prediction.ply"].
Proof.
  reflexivity.
Qed.

Lemma parent_depth_prediction :
  parent (mkPath Slash ["depth_prediction.ply"]) = mkPath Slash [].
Proof.
  reflexivity.
Qed.

Lemma Root_eqb_refl (r : Root) : Root_eqb r r = true.
Proof.
  now destruct r.
Qed.

Lemma Path_eqb_eq (p q : Path) : Path_eqb p q = true <-> p = q.
Proof.
  destruct p as [r n], q as [r' n']. unfold Path_eqb. cbn [root names].
  destruct (list_eq_dec string_dec n n') as [-> | N].
  - rewrite andb_true_r. split; intro H.
    + destruct r, r'; try discriminate; reflexivity.
    + inversion H. apply Root_eqb_refl.
  - rewrite andb_false_r. split; [discriminate | intro H].
    inversion H. contradiction.
Qed.

Lemma Path_eqb_last (p q : Path) :
  Path_eqb p q = true -> last (names p) "" = last (names q) "".
Proof.
  intro H. apply Path_eqb_eq in H. now subst.
Qed.

(** Joining a plain file name appends it. *)
Lemma join_name (p : Path) (n : string) :
  parse n = mkPath Relative [n] ->
  join p n = mkPath (root p) (names p ++ [n]).
Proof.
  intro H. unfold join. now rewrite H.
Qed.

Lemma parent_child (r : Root) (ns : list string) (n : string) :
  parent (mkPath r (ns ++ [n])) = mkPath r ns.
Proof.
  unfold parent. cbn [names root]. rewrite removelast_last.
  destruct ns; reflexivity.
Qed.

Lemma output_names_plain (n : string) :
  In n Exporter.output_names -> parse n = mkPath Relative [n].
Proof.
  unfold Exporter.output_names. cbn [In].
  intros H. repeat (destruct H as [<- | H]; [reflexivity |]). contradiction.
Qed.

End PathFacts.

Section ExporterFacts.

Import Yacs Exporter.

Variable Blob : Type.
Variable dense_default : Q.

Local Abbreviation visualize := (@visualize_results Blob dense_default).
Local Abbreviation grids := (@dense_grids Blob dense_default).

(** The events of one call by how far it gets: short of the dense
    grids, past them but short of a threshold, or to the end. *)
Lemma visualize_results_events (config : Cfg) (results : Results Blob)
    (s : string) (tr : list (Event Blob)) :
  visualize config results (Leaf (VStr s)) tr
  = match dense_volumes dense_default config results with
    | Raise e => ((tr ++ first_events results (Posix.parse s))%list, Raise e)
    | Ok v =>
        match thresholded v with
        | Raise e =>
            ((tr ++ first_events results (Posix.parse s)
                 ++ [sparse_event results (Posix.parse s)])%list, Raise e)
        | Ok g =>
            ((tr ++ first_events results (Posix.parse s)
                 ++ last_events results g (Posix.parse s))%list, Ok tt)
        end
    end.
Proof.
  unfold visualize_results, bindIO, lift, emit. cbn [to_path].
  destruct (dense_volumes dense_default config results) as [v | e].
  - destruct (thresholded v) as [g | e];
      unfold first_events, last_events, sparse_event;
      repeat rewrite <- app_assoc; reflexivity.
  - unfold first_events. repeat rewrite <- app_assoc. reflexivity.
Qed.

(** A call that raises nothing has made the grids and cut the surface,
    and has left all the events. *)
Lemma visualize_results_ok (config : Cfg) (results : Results Blob)
    (s : string) (tr tr' : list (Event Blob)) :
  visualize config results (Leaf (VStr s)) tr = (tr', Ok tt) ->
  exists g,
    grids config results = Ok g
    /\ tr' = (tr ++ first_events results (Posix.parse s)
                 ++ last_events results g (Posix.parse s))%list.
Proof.
  rewrite visualize_results_events. unfold dense_grids.
  destruct (dense_volumes dense_default config results) as [v |];
    [| discriminate].
  cbn [bind]. destruct (thresholded v) as [g |]; [| discriminate].
  intro H. inversion H. now exists g.
Qed.

(** Every call leaves the directory and the first four files. *)
Lemma visualize_results_first (config : Cfg) (results : Results Blob)
    (s : string) (tr : list (Event Blob)) :
  exists rest,
    fst (visualize config results (Leaf (VStr s)) tr)
    = (tr ++ first_events results (Posix.parse s) ++ rest)%list.
Proof.
  rewrite visualize_results_events.
  destruct (dense_volumes dense_default config results) as [v |].
  - destruct (thresholded v) as [g |]; cbn [fst]; eauto.
  - exists []. cbn [fst]. now rewrite app_nil_r.
Qed.

(** What the grids of a call that gets past line 109 come from. *)
Lemma dense_grids_inv (config : Cfg) (results : Results Blob) (g : Grids) :
  grids config results = Ok g ->
  exists dd trunc,
    dense_dimensions config = Ok dd
    /\ truncation config = Ok trunc
    /\ iso_value config = Ok (iso g)
    /\ Sparse.dense (geometry results) dd min_coordinates trunc
       = Ok (surface g)
    /\ Sparse.dense (panoptic_semantics results) dd min_coordinates
         dense_default = Ok (semantics g)
    /\ Sparse.dense (panoptic_instances results) dd min_coordinates
         dense_default = Ok (instances g).
Proof.
  unfold dense_grids, dense_volumes, truncation, iso_value. intro H.
  destruct (dense_dimensions config) as [dd |]; [| discriminate].
  cbn [bind] in H.
  destruct (frustum3d config "TRUNCATION") as [t |]; [| discriminate].
  cbn [bind] in H |- *.
  destruct (frustum3d config "ISO_VALUE") as [i |]; [| discriminate].
  cbn [bind] in H |- *.
  destruct (Inference.to_number t) as [trunc |]; [| discriminate].
  cbn [bind] in H.
  destruct (Sparse.dense (geometry results) _ _ _) as [su |] eqn:S1;
    [| discriminate].
  cbn [bind] in H.
  destruct (Sparse.dense (panoptic_semantics results) _ _ _) as [se |] eqn:S2;
    [| discriminate].
  cbn [bind] in H.
  destruct (Sparse.dense (panoptic_instances results) _ _ _) as [ins |] eqn:S3;
    [| discriminate].
  cbn [bind] in H. unfold thresholded in H.
  cbn [iso_setting dense_surface dense_semantics dense_instances] in H.
  destruct (to_scalar i) as [tau |]; [| discriminate].
  cbn [bind] in H. inversion H; subst g.
  exists dd, trunc. cbn [surface semantics instances iso].
  repeat split; assumption.
Qed.

Lemma dense_inv (s : Sparse.t) (shape : list nat) (mn : Z * Z * Z) (d : Q)
    (x : Tensor.t Q) :
  Sparse.dense s shape mn d = Ok x ->
  length shape = 5%nat
  /\ Tensor.shape x = shape
  /\ (Sparse.C s = [] -> forall idx, Tensor.at_ x idx = d).
Proof.
  unfold Sparse.dense. intro H.
  destruct (Nat.eqb (length shape) 5) eqn:L; [| discriminate].
  cbn [assert bind] in H.
  destruct (Sparse.scatter _ _ _ _) as [f |] eqn:S; [| discriminate].
  cbn [bind] in H. inversion H; subst x. cbn [Tensor.shape Tensor.at_].
  split; [now apply Nat.eqb_eq |]. split; [reflexivity |].
  intros E idx. rewrite E in S. cbn [combine Sparse.scatter] in S.
  now inversion S.
Qed.

Lemma dense_dimensions_inv (config : Cfg) (dd : list nat) :
  dense_dimensions config = Ok dd -> exists dims, dd = ([1; 1]%nat ++ dims)%list.
Proof.
  unfold dense_dimensions. intro H.
  destruct (getattr_path config _) as [g |]; [| discriminate].
  cbn [bind] in H. destruct g as [[| | | | | l |] |]; try discriminate.
  destruct (to_dims l) as [d |]; [| discriminate].
  cbn [bind] in H. inversion H. now exists d.
Qed.

Lemma map_of_nat_injective (a b : list nat) :
  map Z.of_nat a = map Z.of_nat b -> a = b.
Proof.
  revert b. induction a as [| x a IH]; intros [| y b] H; try discriminate.
  - reflexivity.
  - cbn [map] in H. inversion H. f_equal; [lia | now apply IH].
Qed.

(** The rows of [surface_points] are the voxels below the iso value. *)
Lemma surface_points_spec (x : Tensor.t Q) (tau : Q) (idx : list nat) :
  Tensor.inside idx (Tensor.shape x) ->
  (In (voxel_point (Tensor.shape x) idx) (surface_points x tau)
   <-> (Tensor.at_ x idx < tau)%Q).
Proof.
  intro I. unfold surface_points, voxel_point. rewrite in_map_iff. split.
  - intros [q [E H]]. apply map_of_nat_injective in E. subst q.
    apply nonzero_squeeze in H. cbn [Tensor.lt_scalar Tensor.shape Tensor.at_] in H.
    destruct H as [idx' [I' [E A]]].
    apply (contract_injective _ _ _ I I') in E. subst idx'.
    now apply Qltb_true.
  - intro A. exists (Tensor.contract (Tensor.shape x) idx).
    split; [reflexivity |]. apply nonzero_squeeze.
    exists idx. cbn [Tensor.lt_scalar Tensor.shape Tensor.at_].
    split; [exact I |]. split; [reflexivity | now apply Qltb_true].
Qed.

Lemma surface_points_from_voxels (x : Tensor.t Q) (tau : Q) (q : list Z) :
  In q (surface_points x tau) ->
  exists idx, Tensor.inside idx (Tensor.shape x)
              /\ q = voxel_point (Tensor.shape x) idx
              /\ (Tensor.at_ x idx < tau)%Q.
Proof.
  unfold surface_points, voxel_point. rewrite in_map_iff.
  intros [r [<- H]]. apply nonzero_squeeze in H.
  cbn [Tensor.lt_scalar Tensor.shape Tensor.at_] in H.
  destruct H as [idx [I [-> A]]]. exists idx.
  split; [exact I |]. split; [reflexivity | now apply Qltb_true].
Qed.

Lemma written_to_app (p : Posix.Path) (a b : list (Event Blob)) :
  written_to p (a ++ b) = (written_to p a ++ written_to p b)%list.
Proof.
  unfold written_to. apply flat_map_app.
Qed.

Ltac other_path :=
  match goal with
  | |- context [Posix.Path_eqb ?a ?b] =>
      let E := fresh "E" in
      destruct (Posix.Path_eqb a b) eqn:E;
      [ apply Path_eqb_last in E; cbn [Posix.names] in E;
        repeat rewrite last_last in E; cbn [last] in E; discriminate E | ]
  end.

Ltac plain_names p :=
  rewrite ?(join_name p "depth_map.png" eq_refl),
    ?(join_name p "detection.png" eq_refl),
    ?(join_name p "projection.ply" eq_refl),
    ?(join_name p "sparse_coordinates.ply" eq_refl),
    ?(join_name p "points_geometry.ply" eq_refl),
    ?(join_name p "surface_pcd.ply" eq_refl),
    ?(join_name p "mesh_geometry.ply" eq_refl),
    ?(join_name p "mesh_semantics.ply" eq_refl),
    ?(join_name p "mesh_instances.ply" eq_refl).

Lemma written_to_points_geometry (results : Results Blob) (g : Grids)
    (p : Posix.Path) :
  written_to (Posix.join p "points_geometry.ply")
    (first_events results p ++ last_events results g p)
  = [PointCloud Blob (surface_points (surface g) (iso g))].
Proof.
  unfold first_events, last_events, sparse_event.
  rewrite join_depth_prediction.
  plain_names p.
  unfold written_to. cbn [app flat_map].
  replace (Posix.Path_eqb
             (Posix.mkPath (Posix.root p) (Posix.names p ++ ["points_geometry.ply"]))
             (Posix.mkPath (Posix.root p) (Posix.names p ++ ["points_geometry.ply"])))
    with true by (symmetry; now apply Path_eqb_eq).
  repeat other_path. reflexivity.
Qed.

(** C3, as the code has it. The three dense grids are made with the
    dimensions [(1, 1) + GRID_DIMENSIONS] (five in all) and the minimum
    coordinate [(0, 0, 0)]. The configured truncation value is the fill
    of the geometry grid only: a geometry with no entry gives a grid of
    the truncation value throughout, and panoptic semantics or instances
    with no entry give a grid of [dense]'s own default throughout. *)
Theorem dense_grids_fill (config : Cfg) (results : Results Blob) (g : Grids) :
  grids config results = Ok g ->
  exists dims trunc,
    dense_dimensions config = Ok ([1; 1]%nat ++ dims)%list
    /\ length dims = 3%nat
    /\ truncation config = Ok trunc
    /\ Sparse.dense (geometry results) ([1; 1]%nat ++ dims) (0, 0, 0)%Z trunc
       = Ok (surface g)
    /\ Sparse.dense (panoptic_semantics results) ([1; 1]%nat ++ dims) (0, 0, 0)%Z
         dense_default = Ok (semantics g)
    /\ Sparse.dense (panoptic_instances results) ([1; 1]%nat ++ dims) (0, 0, 0)%Z
         dense_default = Ok (instances g)
    /\ Tensor.shape (surface g) = ([1; 1]%nat ++ dims)%list
    /\ Tensor.shape (semantics g) = ([1; 1]%nat ++ dims)%list
    /\ Tensor.shape (instances g) = ([1; 1]%nat ++ dims)%list
    /\ (Sparse.C (geometry results) = [] ->
        forall idx, Tensor.at_ (surface g) idx = trunc)
    /\ (Sparse.C (panoptic_semantics results) = [] ->
        forall idx, Tensor.at_ (semantics g) idx = dense_default)
    /\ (Sparse.C (panoptic_instances results) = [] ->
        forall idx, Tensor.at_ (instances g) idx = dense_default).
Proof.
  intro H.
  destruct (dense_grids_inv _ _ _ H) as [dd [trunc [D [T [_ [S1 [S2 S3]]]]]]].
  destruct (dense_dimensions_inv _ _ D) as [dims ->].
  destruct (dense_inv _ _ _ _ _ S1) as [L1 [A1 B1]].
  destruct (dense_inv _ _ _ _ _ S2) as [_ [A2 B2]].
  destruct (dense_inv _ _ _ _ _ S3) as [_ [A3 B3]].
  exists dims, trunc. unfold min_coordinates in *. rewrite D.
  repeat (split; [first [reflexivity | assumption] |]).
  split; [cbn [length app] in L1; lia |].
  repeat (split; [first [reflexivity | assumption] |]).
  assumption.
Qed.

Lemma voxel_point_plain (X Y Z_ x y z : nat) :
  X <> 1%nat -> Y <> 1%nat -> Z_ <> 1%nat ->
  voxel_point [1; 1; X; Y; Z_]%nat [0; 0; x; y; z]%nat
  = [Z.of_nat x; Z.of_nat y; Z.of_nat z].
Proof.
  intros HX HY HZ. unfold voxel_point. cbn [Tensor.contract Nat.eqb].
  apply Nat.eqb_neq in HX, HY, HZ. now rewrite HX, HY, HZ.
Qed.

(** X19. The content written to [points_geometry.ply] is the point
    cloud of [surface_points] and nothing else, and its rows are exactly
    the voxels of the dense geometry grid whose value is strictly below
    the iso value, each without the coordinates of the grid dimensions
    of size one, which [squeeze] removes: a voxel is among them if and
    only if its value is below, every row is such a voxel, and a voxel
    whose value equals the iso value is not among them. On a grid with
    no dimension of size one the row of the voxel [(x, y, z)] is
    [(x, y, z)] itself. *)
Theorem points_geometry_exact (config : Cfg) (results : Results Blob)
    (s : string) (tr tr' : list (Event Blob)) :
  visualize config results (Leaf (VStr s)) tr = (tr', Ok tt) ->
  exists g,
    grids config results = Ok g
    /\ written_to (Posix.join (Posix.parse s) "points_geometry.ply") tr'
       = (written_to (Posix.join (Posix.parse s) "points_geometry.ply") tr
          ++ [PointCloud Blob (surface_points (surface g) (iso g))])%list
    /\ (forall idx, Tensor.inside idx (Tensor.shape (surface g)) ->
          (In (voxel_point (Tensor.shape (surface g)) idx)
              (surface_points (surface g) (iso g))
           <-> (Tensor.at_ (surface g) idx < iso g)%Q))
    /\ (forall q, In q (surface_points (surface g) (iso g)) ->
          exists idx, Tensor.inside idx (Tensor.shape (surface g))
                      /\ q = voxel_point (Tensor.shape (surface g)) idx
                      /\ (Tensor.at_ (surface g) idx < iso g)%Q)
    /\ (forall idx, Tensor.inside idx (Tensor.shape (surface g)) ->
          (Tensor.at_ (surface g) idx == iso g)%Q ->
          ~ In (voxel_point (Tensor.shape (surface g)) idx)
               (surface_points (surface g) (iso g)))
    /\ (forall X Y Z_ x y z,
          Tensor.shape (surface g) = [1; 1; X; Y; Z_]%nat ->
          X <> 1%nat -> Y <> 1%nat -> Z_ <> 1%nat ->
          voxel_point (Tensor.shape (surface g)) [0; 0; x; y; z]%nat
          = [Z.of_nat x; Z.of_nat y; Z.of_nat z]).
Proof.
  intro H. destruct (visualize_results_ok _ _ _ _ _ H) as [g [G ->]].
  exists g. split; [exact G |]. split.
  - rewrite written_to_app. f_equal. apply written_to_points_geometry.
  - split; [intros idx I; now apply surface_points_spec |].
    split; [intros q; apply surface_points_from_voxels |]. split.
    + intros idx I E A. apply (surface_points_spec _ _ _ I) in A.
      rewrite E in A. now apply Qlt_irrefl in A.
    + intros X Y Z_ x y z S HX HY HZ. rewrite S.
      now apply voxel_point_plain.
Qed.

(** C6, as the code has it. Whatever the output directory is, joining
    it with ["/depth_prediction.ply"] gives the path
    [/depth_prediction.ply] under the root of the file system, and this
    is where the exporter writes the depth point cloud. That path is a
    file of the output directory exactly when the output directory is
    the root [/] itself. *)
Theorem depth_point_cloud_path (config : Cfg) (results : Results Blob)
    (s : string) (tr : list (Event Blob)) :
  Posix.join (Posix.parse s) "/depth_prediction.ply"
  = Posix.mkPath Posix.Slash ["depth_prediction.ply"]
  /\ In (Write (Posix.mkPath Posix.Slash ["depth_prediction.ply"])
           (DepthPointCloud (depth results) (intrinsic results)))
        (fst (visualize config results (Leaf (VStr s)) tr))
  /\ (Posix.parent (Posix.join (Posix.parse s) "/depth_prediction.ply")
      = Posix.parse s
      <-> Posix.parse s = Posix.mkPath Posix.Slash [])
  /\ (Posix.join (Posix.parse s) "/depth_prediction.ply"
      = Posix.join (Posix.parse s) "depth_prediction.ply"
      <-> Posix.parse s = Posix.mkPath Posix.Slash []).
Proof.
  split; [reflexivity |]. split.
  - destruct (visualize_results_first config results s tr) as [rest ->].
    apply in_or_app. right. apply in_or_app. left.
    unfold first_events. rewrite join_depth_prediction.
    right. left. reflexivity.
  - rewrite join_depth_prediction, parent_depth_prediction.
    rewrite (join_name _ "depth_prediction.ply" eq_refl).
    split; [split; intro H; now rewrite H |].
    destruct (Posix.parse s) as [r ns]. cbn [Posix.root Posix.names]. split.
    + intro H. inversion H as [[R N]].
      destruct ns as [| a [| b ns]]; [reflexivity | discriminate N..].
    + intro H. inversion H. reflexivity.
Qed.

(** X1. On a run of the exporter without error the output directory is made
    first, every one of the nine names is written as a file of the output
    directory, and the depth point cloud is written to
    [/depth_prediction.ply]. *)
Theorem visualize_results_writes_named_files (config : Cfg)
    (results : Results Blob) (s : string) (tr' : list (Event Blob)) :
  visualize config results (Leaf (VStr s)) [] = (tr', Ok tt) ->
  hd_error tr' = Some (Mkdir Blob (Posix.parse s))
  /\ (forall n, In n output_names ->
        Posix.parent (Posix.join (Posix.parse s) n) = Posix.parse s
        /\ written_to (Posix.join (Posix.parse s) n) tr' <> [])
  /\ written_to (Posix.mkPath Posix.Slash ["depth_prediction.ply"]) tr' <> [].
Proof.
  intro H. destruct (visualize_results_ok _ _ _ _ _ H) as [g [G ->]].
  cbn [app].
  split; [reflexivity |].
  assert (W : forall p a (l : list (Event Blob)),
             In (Write p a) l -> written_to p l <> []).
  { intros p a l I E.
    assert (X : In a (written_to p l)).
    { unfold written_to. apply in_flat_map. exists (Write p a).
      split; [exact I |].
      replace (Posix.Path_eqb p p) with true
        by (symmetry; now apply Path_eqb_eq).
      now left. }
    rewrite E in X. contradiction. }
  split.
  - intros n I. rewrite (join_name _ n (output_names_plain n I)).
    split.
    + rewrite parent_child. now destruct (Posix.parse s).
    + rewrite <- (join_name _ n (output_names_plain n I)).
      unfold output_names in I. cbn [In] in I.
      unfold first_events, last_events, sparse_event. cbn [app].
      repeat (destruct I as [<- | I];
              [eapply W; cbn [In]; eauto 20 |]).
      contradiction.
  - eapply W. unfold first_events. rewrite join_depth_prediction.
    cbn [In app]. eauto.
Qed.

Lemma dense_volumes_iso (config : Cfg) (results : Results Blob) (v : Volumes) :
  dense_volumes dense_default config results = Ok v ->
  frustum3d config "ISO_VALUE" = Ok (iso_setting v).
Proof.
  unfold dense_volumes. intro H.
  destruct (dense_dimensions config) as [dd |]; [| discriminate].
  cbn [bind] in H.
  destruct (frustum3d config "TRUNCATION") as [t |]; [| discriminate].
  cbn [bind] in H.
  destruct (frustum3d config "ISO_VALUE") as [i |]; [| discriminate].
  cbn [bind] in H.
  destruct (Inference.to_number t) as [trunc |]; [| discriminate].
  cbn [bind] in H.
  destruct (Sparse.dense (geometry results) _ _ _) as [su |];
    [| discriminate].
  cbn [bind] in H.
  destruct (Sparse.dense (panoptic_semantics results) _ _ _) as [se |];
    [| discriminate].
  cbn [bind] in H.
  destruct (Sparse.dense (panoptic_instances results) _ _ _) as [ins |];
    [| discriminate].
  cbn [bind] in H. inversion H. reflexivity.
Qed.

(** None of the files of the surface is among the first events or is
    the file of the sparse coordinates. *)
Lemma written_to_before_surface (results : Results Blob) (p : Posix.Path)
    (n : string) :
  In n surface_names ->
  written_to (Posix.join p n)
    (first_events results p ++ [sparse_event results p]) = [].
Proof.
  unfold surface_names. cbn [In]. intro I.
  repeat (destruct I as [<- | I];
          [ unfold first_events, sparse_event;
            rewrite join_depth_prediction; plain_names p;
            unfold written_to; cbn [app flat_map];
            repeat other_path; reflexivity | ]).
  contradiction.
Qed.

(** X2. A call that fails at the dense grids or at the threshold keeps
    what it has written. When lines 96 to 104 raise, the error ends the
    call after the directory and the first four files. When they do not
    and the iso value is nothing a tensor compares with, the error of
    line 109 ends the call after [sparse_coordinates.ply] as well. And
    however a call fails, it has written none of [points_geometry.ply],
    [surface_pcd.ply] and the three meshes. *)
Theorem visualize_results_failure_keeps_files (config : Cfg)
    (results : Results Blob) (s : string) (tr : list (Event Blob)) (e : PyError) :
  (dense_volumes dense_default config results = Raise e ->
   visualize config results (Leaf (VStr s)) tr
   = ((tr ++ first_events results (Posix.parse s))%list, Raise e))
  /\ (forall v,
        dense_volumes dense_default config results = Ok v ->
        iso_value config = Raise e ->
        visualize config results (Leaf (VStr s)) tr
        = ((tr ++ first_events results (Posix.parse s)
               ++ [sparse_event results (Posix.parse s)])%list, Raise e))
  /\ (forall n,
        snd (visualize config results (Leaf (VStr s)) tr) = Raise e ->
        In n surface_names ->
        written_to (Posix.join (Posix.parse s) n)
          (fst (visualize config results (Leaf (VStr s)) tr))
        = written_to (Posix.join (Posix.parse s) n) tr).
Proof.
  rewrite visualize_results_events. split; [| split].
  - intro H. now rewrite H.
  - intros v H I. rewrite H. unfold iso_value in I.
    rewrite (dense_volumes_iso _ _ _ H) in I. cbn [bind] in I.
    unfold thresholded. now rewrite I.
  - intros n F I.
    pose proof (written_to_before_surface results (Posix.parse s) n I) as W.
    rewrite written_to_app in W. apply app_eq_nil in W. destruct W as [W1 W2].
    destruct (dense_volumes dense_default config results) as [v |].
    + destruct (thresholded v) as [g |]; [discriminate F |].
      cbn [fst]. rewrite !written_to_app, W1, W2. now rewrite app_nil_r.
    + cbn [fst]. rewrite written_to_app, W1. now rewrite app_nil_r.
Qed.

(** X3. [surface_pcd.ply] is written twice, with the same semantic point
    cloud of the surface points. *)
Theorem surface_pcd_written_twice (config : Cfg) (results : Results Blob)
    (s : string) (tr tr' : list (Event Blob)) :
  visualize config results (Leaf (VStr s)) tr = (tr', Ok tt) ->
  exists g,
    grids config results = Ok g
    /\ written_to (Posix.join (Posix.parse s) "surface_pcd.ply") tr'
       = (written_to (Posix.join (Posix.parse s) "surface_pcd.ply") tr
          ++ [SemanticPointCloud Blob (surface_points (surface g) (iso g));
              SemanticPointCloud Blob (surface_points (surface g) (iso g))])%list.
Proof.
  intro H. destruct (visualize_results_ok _ _ _ _ _ H) as [g [G ->]].
  exists g. split; [exact G |].
  rewrite written_to_app. f_equal.
  unfold first_events, last_events, sparse_event.
  rewrite join_depth_prediction. plain_names (Posix.parse s).
  unfold written_to. cbn [app flat_map].
  replace (Posix.Path_eqb
             (Posix.mkPath (Posix.root (Posix.parse s))
                (Posix.names (Posix.parse s) ++ ["surface_pcd.ply"]))
             (Posix.mkPath (Posix.root (Posix.parse s))
                (Posix.names (Posix.parse s) ++ ["surface_pcd.ply"])))
    with true by (symmetry; now apply Path_eqb_eq).
  repeat other_path. reflexivity.
Qed.

End ExporterFacts.

(** * The intrinsic matrix *)

Section IntrinsicFacts.

Import Inference.

Local Open Scope Q_scope.

Lemma update_nth_some {A : Type} (f : A -> A) (l : list A) :
  forall n l', update_nth l n f = Some l' ->
               exists x, nth_error l n = Some x /\ nth_error l' n = Some (f x).
Proof.
  induction l as [| x l IH]; intros n l' H; destruct n as [| n]; simpl in H;
    try discriminate.
  - inversion H. exists x. split; reflexivity.
  - destruct (update_nth l n f) as [r |] eqn:E; [| discriminate].
    inversion H. simpl. now apply IH.
Qed.

Lemma update_nth_other {A : Type} (f : A -> A) (l : list A) :
  forall n k l', update_nth l n f = Some l' -> k <> n ->
                 nth_error l' k = nth_error l k.
Proof.
  induction l as [| x l IH]; intros n k l' H N; destruct n as [| n]; simpl in H;
    try discriminate.
  - inversion H. destruct k; [congruence | reflexivity].
  - destruct (update_nth l n f) as [r |] eqn:E; [| discriminate].
    inversion H. destruct k; [reflexivity |]. simpl. eapply IH; eauto.
Qed.

(** A successful [m[i, j] *= c]: the entry was there, it is scaled, and
    no other entry changes. *)
Lemma scale_entry_inv (m m' : Matrix) (i j : nat) (c : Q) :
  scale_entry m i j c = Ok m' ->
  exists x, entry m i j = Some x
            /\ entry m' i j = Some (x * c)
            /\ (forall i' j', (i', j') <> (i, j) -> entry m' i' j' = entry m i' j').
Proof.
  unfold scale_entry, entry. intro H.
  destruct (nth_error m i) as [row |] eqn:R; [| discriminate].
  destruct (update_nth row j _) as [row' |] eqn:U; [| discriminate].
  destruct (update_nth m i _) as [m1 |] eqn:V; [| discriminate].
  inversion H; subst m1.
  destruct (update_nth_some _ _ _ _ U) as [x [X X']].
  destruct (update_nth_some _ _ _ _ V) as [row0 [_ Y']].
  exists x. split; [exact X |]. split.
  - now rewrite Y'.
  - intros i' j' N. destruct (Nat.eq_dec i' i) as [-> | Ni].
    + rewrite Y', R. apply (update_nth_other _ _ _ _ _ U). congruence.
    + now rewrite (update_nth_other _ _ _ _ _ V Ni).
Qed.

Lemma depth_over_color_width :
  ratio (fst depth_image_size) (fst color_image_size) == 1 # 2.
Proof.
  reflexivity.
Qed.

Lemma depth_over_color_height :
  ratio (snd depth_image_size) (snd color_image_size) == 1 # 2.
Proof.
  reflexivity.
Qed.

(** C9. Rescaling the intrinsic matrix from the color resolution
    320 x 240 to the depth resolution 160 x 120 halves the two focal
    lengths ([0,0] and [1,1]) and the two coordinates of the principal
    point ([0,2] and [1,2]) exactly, and leaves every other entry as it
    was. *)
Theorem adjust_intrinsic_halves (m m' : Matrix) :
  adjust_intrinsic m color_image_size depth_image_size = Ok m' ->
  halved m m' 0 0 /\ halved m m' 1 1 /\ halved m m' 0 2 /\ halved m m' 1 2
  /\ (forall i j, scaled_place i j = false -> entry m' i j = entry m i j).
Proof.
  unfold adjust_intrinsic. intro H.
  destruct (scale_entry m 0 0 _) as [m1 |] eqn:S1; [| discriminate].
  cbn [bind] in H.
  destruct (scale_entry m1 1 1 _) as [m2 |] eqn:S2; [| discriminate].
  cbn [bind] in H.
  destruct (scale_entry m2 0 2 _) as [m3 |] eqn:S3; [| discriminate].
  cbn [bind] in H.
  destruct (scale_entry_inv _ _ _ _ _ S1) as [x1 [E1 [F1 O1]]].
  destruct (scale_entry_inv _ _ _ _ _ S2) as [x2 [E2 [F2 O2]]].
  destruct (scale_entry_inv _ _ _ _ _ S3) as [x3 [E3 [F3 O3]]].
  destruct (scale_entry_inv _ _ _ _ _ H) as [x4 [E4 [F4 O4]]].
  unfold halved. repeat split.
  - rewrite O4, O3, O2, F1, E1 by congruence.
    now rewrite depth_over_color_width.
  - rewrite O4, O3, F2 by congruence.
    rewrite <- (O1 1%nat 1%nat), E2 by congruence.
    now rewrite depth_over_color_height.
  - rewrite O4, F3 by congruence.
    rewrite <- (O1 0%nat 2%nat), <- (O2 0%nat 2%nat), E3 by congruence.
    now rewrite depth_over_color_width.
  - rewrite F4.
    rewrite <- (O1 1%nat 2%nat), <- (O2 1%nat 2%nat), <- (O3 1%nat 2%nat), E4
      by congruence.
    now rewrite depth_over_color_height.
  - intros i j F. rewrite O4, O3, O2, O1; auto;
      intro E; inversion E; subst; discriminate.
Qed.

Lemma adjust_intrinsic_halves_witness :
  exists m m',
    prepare_intrinsic Sample.config = Ok m'
    /\ adjust_intrinsic m color_image_size depth_image_size = Ok m'
    /\ entry m 0 0 = Some (2775 # 10)
    /\ halved m m' 0 0 /\ halved m m' 1 1 /\ halved m m' 0 2 /\ halved m m' 1 2.
Proof.
  exists [[2775 # 10; 0; inject_Z 160]; [0; 2775 # 10; inject_Z 120];
          [0; 0; inject_Z 1]].
  eexists. split; [reflexivity |].
  match goal with
  | |- ?A /\ _ => assert (H : A) by reflexivity
  end.
  split; [exact H |]. split; [reflexivity |].
  destruct (adjust_intrinsic_halves _ _ H) as [A [B [C [D _]]]].
  auto.
Defined.

End IntrinsicFacts.

(** * The driver on the sample *)

Section SampleRuns.

Import Yacs Inference Exporter.

Local Abbreviation sample_configure :=
  (configure_inference Sample.literal_eval Sample.load_cfg [] []
     Sample.no_new_keys Sample.opts Sample.config).

Lemma configure_inference_forces_flags_witness :
  exists config',
    sample_configure = Ok config'
    /\ getattr_path config' ["MODEL"; "FRUSTUM3D"; "IS_LEVEL_64"]
       = Ok (Leaf (VBool false))
    /\ getattr_path config' ["MODEL"; "FRUSTUM3D"; "IS_LEVEL_128"]
       = Ok (Leaf (VBool false))
    /\ getattr_path config' ["MODEL"; "FRUSTUM3D"; "IS_LEVEL_256"]
       = Ok (Leaf (VBool false))
    /\ getattr_path config' ["MODEL"; "FRUSTUM3D"; "FIX"]
       = Ok (Leaf (VBool true)).
Proof.
  destruct sample_configure as [c |] eqn:E.
  - exists c. split; [reflexivity |].
    exact (configure_inference_forces_flags _ _ _ _ _ _ _ _ E).
  - vm_compute in E. discriminate E.
Defined.

Lemma output_dir_is_merged_value_witness :
  exists config',
    sample_configure = Ok config'
    /\ output Sample.opts = "output/sample_0007/"
    /\ getattr config' "OUTPUT_DIR" = Ok (Leaf (VStr "elsewhere"))
    /\ hd_error
         (fst (main 0 Sample.literal_eval Sample.load_cfg [] []
                 Sample.no_new_keys Sample.load Sample.inference
                 Sample.opts Sample.config []))
       = Some (Mkdir unit (Posix.parse "elsewhere")).
Proof.
  destruct sample_configure as [c |] eqn:E.
  - exists c. split; [reflexivity |]. split; [reflexivity |].
    destruct (output_dir_is_merged_value unit 0 Sample.literal_eval
                Sample.load_cfg [] [] Sample.no_new_keys unit Sample.load
                Sample.inference Sample.opts Sample.config c eq_refl E)
      as [w [G [A _]]].
    cbn [last_value pairs opts Sample.opts String.eqb Ascii.eqb Bool.eqb] in A.
    destruct A as [_ A]. rewrite (A "elsewhere" eq_refl) in G.
    split; [exact G | reflexivity].
  - vm_compute in E. discriminate E.
Defined.

Lemma dense_grids_fill_witness :
  exists g,
    dense_grids 0 Sample.config Sample.empty_results = Ok g
    /\ Tensor.shape (surface g) = [1; 1; 2; 1; 2]%nat
    /\ (forall idx, Tensor.at_ (surface g) idx = 3%Q)
    /\ (forall idx, Tensor.at_ (semantics g) idx = 0%Q).
Proof.
  destruct (dense_grids 0 Sample.config Sample.empty_results) as [g |] eqn:E.
  - exists g. split; [reflexivity |].
    destruct (dense_grids_fill unit 0 _ _ _ E)
      as [dims [trunc [D [_ [T [_ [_ [_ [S [_ [_ [A [B _]]]]]]]]]]]]].
    vm_compute in D. inversion D; subst dims.
    vm_compute in T. inversion T; subst trunc.
    split; [exact S |]. split; [exact (A eq_refl) | exact (B eq_refl)].
  - vm_compute in E. discriminate E.
Defined.

(** C3 as stated fails for the panoptic grids: whatever [dense]'s own
    default is, there is a configuration whose truncation value is
    another number, and the semantics of no entry are filled with the
    default. *)
Lemma semantics_fill_is_not_truncation :
  ~ (exists d : Q,
       forall (config : Cfg) (results : Results unit) (g : Grids) (trunc : Q),
         dense_grids d config results = Ok g ->
         truncation config = Ok trunc ->
         Sparse.C (panoptic_semantics results) = [] ->
         forall idx, (Tensor.at_ (semantics g) idx == trunc)%Q).
Proof.
  intros [d H].
  assert (E : dense_grids d (Sample.config_with (d + 1)) Sample.empty_results
              = Ok (mkGrids (Tensor.mk [1; 1; 2; 1; 2]%nat (fun _ => (d + 1)%Q))
                      (Tensor.mk [1; 1; 2; 1; 2]%nat (fun _ => d))
                      (Tensor.mk [1; 1; 2; 1; 2]%nat (fun _ => d)) 1))
    by reflexivity.
  specialize (H _ _ _ (d + 1)%Q E eq_refl eq_refl [0; 0; 0; 0; 0]%nat).
  cbn [semantics Tensor.at_] in H. lra.
Qed.

Local Abbreviation sample_visualize :=
  (visualize_results 0 Sample.config Sample.results (Leaf (VStr "output")) []).

Lemma sample_visualize_ok : sample_visualize = (fst sample_visualize, Ok tt).
Proof.
  vm_compute. reflexivity.
Qed.

Lemma points_geometry_exact_witness :
  exists g,
    dense_grids 0 Sample.config Sample.results = Ok g
    /\ written_to (Posix.join (Posix.parse "output") "points_geometry.ply")
         (fst sample_visualize)
       = [PointCloud unit (surface_points (surface g) (iso g))]
    /\ (In (voxel_point (Tensor.shape (surface g)) [0; 0; 0; 0; 0]%nat)
           (surface_points (surface g) (iso g))
        <-> (Tensor.at_ (surface g) [0; 0; 0; 0; 0]%nat < iso g)%Q).
Proof.
  destruct (points_geometry_exact unit 0 _ _ _ _ _ sample_visualize_ok)
    as [g [G [W [A _]]]].
  exists g. split; [exact G |]. split; [exact W |].
  apply A.
  assert (S : Tensor.shape (surface g) = [1; 1; 2; 1; 2]%nat).
  { vm_compute in G. inversion G. reflexivity. }
  rewrite S. repeat constructor.
Defined.

(** C4 on a grid with a dimension of size one. On the sample's grid
    of 2 x 1 x 2 voxels the voxel [(0, 0, 0)] is below the iso value,
    and the row written for it is [(0, 0)]: [squeeze()] on line 109
    takes the grid dimension of size one away together with the batch
    and the channel, so the coordinate of the voxel is not among the
    points written. *)
Lemma points_of_flat_grid_drop_a_coordinate :
  exists g,
    dense_grids 0 Sample.config Sample.results = Ok g
    /\ Tensor.shape (surface g) = [1; 1; 2; 1; 2]%nat
    /\ (Tensor.at_ (surface g) [0; 0; 0; 0; 0]%nat < iso g)%Q
    /\ written_to (Posix.join (Posix.parse "output") "points_geometry.ply")
         (fst sample_visualize)
       = [PointCloud unit [[0; 0]%Z]]
    /\ ~ In [0; 0; 0]%Z (surface_points (surface g) (iso g)).
Proof.
  eexists. split; [reflexivity |]. split; [reflexivity |].
  split; [reflexivity |]. split; [reflexivity |].
  vm_compute. intros [H | []]. discriminate H.
Qed.

Lemma visualize_results_writes_named_files_witness :
  hd_error (fst sample_visualize) = Some (Mkdir unit (Posix.parse "output"))
  /\ written_to (Posix.join (Posix.parse "output") "mesh_instances.ply")
       (fst sample_visualize) <> [].
Proof.
  destruct (visualize_results_writes_named_files unit 0 _ _ _ _
              sample_visualize_ok) as [A [B _]].
  split; [exact A |].
  apply (B "mesh_instances.ply"). unfold output_names. cbn [In]. tauto.
Defined.

Lemma visualize_results_failure_keeps_files_witness :
  visualize_results 0 Sample.config_without_iso Sample.results
    (Leaf (VStr "output")) []
  = ((first_events Sample.results (Posix.parse "output")
        ++ [sparse_event Sample.results (Posix.parse "output")])%list,
     Raise TypeError).
Proof.
  destruct (dense_volumes 0 Sample.config_without_iso Sample.results)
    as [v |] eqn:E.
  - exact (proj1 (proj2 (visualize_results_failure_keeps_files unit 0
                           Sample.config_without_iso Sample.results
                           "output" [] TypeError))
             v E eq_refl).
  - vm_compute in E. discriminate E.
Defined.

Lemma surface_pcd_written_twice_witness :
  exists g,
    dense_grids 0 Sample.config Sample.results = Ok g
    /\ written_to (Posix.join (Posix.parse "output") "surface_pcd.ply")
         (fst sample_visualize)
       = [SemanticPointCloud unit (surface_points (surface g) (iso g));
          SemanticPointCloud unit (surface_points (surface g) (iso g))].
Proof.
  exact (surface_pcd_written_twice unit 0 _ _ _ _ _ sample_visualize_ok).
Defined.

(** C6 as stated fails when the output directory is the root: the
    depth point cloud is then a file of the output directory. *)
Lemma depth_point_cloud_in_root_output :
  Posix.parent (Posix.join (Posix.parse "/") "/depth_prediction.ply")
  = Posix.parse "/"
  /\ Posix.join (Posix.parse "/") "/depth_prediction.ply"
     = Posix.join (Posix.parse "/") "depth_prediction.ply".
Proof.
  split; reflexivity.
Qed.

End SampleRuns.

(** * Further properties of the robust regression loss *)

Section MoreLossFacts.

Import Loss.
Local Open Scope Q_scope.

Lemma Qltb_compat (x x' y y' : Q) : x == x' -> y == y' -> Qltb x y = Qltb x' y'.
Proof.
  intros Ex Ey.
  destruct (Qltb x y) eqn:A; destruct (Qltb x' y') eqn:B; try reflexivity.
  - apply Qltb_true in A. apply Qltb_false in B. lra.
  - apply Qltb_false in A. apply Qltb_true in B. lra.
Qed.

Lemma where_loss_compat (beta n n' : Q) :
  n == n' -> where_loss beta n == where_loss beta n'.
Proof.
  intro E. unfold where_loss.
  rewrite (Qltb_compat n n' beta beta E (Qeq_refl beta)).
  destruct (Qltb n' beta); unfold quadratic, linear; simpl; now rewrite E.
Qed.

Lemma sum_compat (l l' : Tensor) : Forall2 Qeq l l' -> sum l == sum l'.
Proof.
  induction 1 as [| x y l l' E _ IH]; simpl; [reflexivity |].
  now rewrite E, IH.
Qed.

Lemma Forall2_length_eq (l l' : Tensor) :
  Forall2 Qeq l l' -> length l = length l'.
Proof.
  induction 1; simpl; congruence.
Qed.

Lemma mean_compat (l l' : Tensor) :
  Forall2 Qeq l l' -> same_outcome (Ok (mean l)) (Ok (mean l')).
Proof.
  intro H. pose proof (Forall2_length_eq _ _ H) as L.
  pose proof (sum_compat _ _ H) as S.
  destruct H as [| x y l l' E H]; [exact I |].
  unfold mean, same_outcome. rewrite L, S. reflexivity.
Qed.

Lemma map_where_loss_compat (beta : Q) (l l' : Tensor) :
  Forall2 Qeq l l' ->
  Forall2 Qeq (map (where_loss beta) l) (map (where_loss beta) l').
Proof.
  induction 1; cbn [map]; constructor; auto using where_loss_compat.
Qed.

Lemma absdiff_sym (x t : Q) : Qabs (x - t) == Qabs (t - x).
Proof.
  rewrite Qabs_Qminus. reflexivity.
Qed.

Lemma zip_absdiff_sym (a : Tensor) :
  forall b, Forall2 Qeq (zip_with (fun x t => Qabs (x - t)) a b)
                        (zip_with (fun x t => Qabs (x - t)) b a).
Proof.
  induction a as [| x a IH]; intros [| t b]; cbn [zip_with]; constructor.
  - apply absdiff_sym.
  - apply IH.
Qed.

Lemma map_absdiff_sym (y : Q) (a : Tensor) :
  Forall2 Qeq (map (fun x => Qabs (x - y)) a) (map (fun x => Qabs (y - x)) a).
Proof.
  induction a; cbn [map]; constructor; auto using absdiff_sym.
Qed.

Lemma Forall2_Qeq_sym (l l' : Tensor) : Forall2 Qeq l l' -> Forall2 Qeq l' l.
Proof.
  induction 1; constructor; auto. now symmetry.
Qed.

(** The differences of the two orders of the arguments: refused
    together, or of the same absolute values. *)
Lemma broadcast_absdiff_sym (a b : Tensor) :
  match broadcast (fun x t => Qabs (x - t)) a b,
        broadcast (fun x t => Qabs (x - t)) b a with
  | Ok l, Ok l' => Forall2 Qeq l l'
  | Raise e, Raise e' => e = e'
  | _, _ => False
  end.
Proof.
  unfold broadcast. rewrite (Nat.eqb_sym (length b) (length a)).
  destruct (Nat.eqb (length a) (length b)) eqn:E.
  - apply zip_absdiff_sym.
  - destruct a as [| x [| x' a]], b as [| y [| y' b]];
      try discriminate E; try reflexivity;
      first [ now constructor
            | apply Forall2_Qeq_sym; apply (map_absdiff_sym x (y :: y' :: b))
            | apply (map_absdiff_sym y (x :: x' :: a)) ].
Qed.

(** X4. The loss is symmetric in prediction and target: with the two
    tensors exchanged it raises the same error or returns the same
    value, for every threshold and both reductions. *)
Theorem reconstruction_loss_symmetric (input target : Tensor) (beta : Q)
    (size_average : bool) :
  same_outcome (reconstruction_loss input target beta size_average)
               (reconstruction_loss target input beta size_average).
Proof.
  unfold reconstruction_loss.
  pose proof (broadcast_absdiff_sym input target) as H.
  destruct (broadcast _ input target) as [l | e];
    destruct (broadcast _ target input) as [l' | e']; try contradiction.
  - cbn [bind]. apply (map_where_loss_compat beta) in H.
    destruct size_average.
    + now apply mean_compat.
    + cbn [same_outcome]. now apply sum_compat.
  - exact H.
Qed.

End MoreLossFacts.

(** * Further properties of the configuration *)

Section MoreYacsFacts.

Import Yacs.

Lemma getattr_path_error (q : list string) :
  forall (c : Cfg) (e : PyError), getattr_path c q = Raise e -> e = AttributeError.
Proof.
  induction q as [| a q IH]; intros c e H; cbn [getattr_path] in H.
  - discriminate.
  - destruct (getattr c a) as [inner | e'] eqn:G; cbn [bind] in H.
    + eapply IH; eassumption.
    + inversion H; subst e'. clear H.
      destruct c as [| kids]; cbn [getattr] in G; [congruence |].
      destruct (lookup a kids); congruence.
Qed.

(** [obj.path.name = c] succeeds exactly when [obj.path] is a node, and
    then that node has the one entry set. *)
Lemma setattr_path_node (path : list string) :
  forall (obj : Cfg) (name : string) (c : Cfg) (kids : dict),
    getattr_path obj path = Ok (Node kids) ->
    exists obj',
      setattr_path obj path name c = Ok obj'
      /\ getattr_path obj' path = Ok (Node (set_item name c kids)).
Proof.
  induction path as [| a path IH]; intros obj name c kids H;
    cbn [getattr_path setattr_path] in *.
  - inversion H; subst obj. eexists. split; reflexivity.
  - destruct (getattr obj a) as [inner |] eqn:G; cbn [bind] in *; [| discriminate].
    destruct (IH inner name c kids H) as [inner' [S G']].
    rewrite S. cbn [bind].
    destruct obj as [| okids]; [discriminate |].
    eexists. split; [reflexivity |].
    cbn [getattr]. rewrite lookup_set_item_same. cbn [bind]. exact G'.
Qed.

Lemma setattr_path_not_node (path : list string) :
  forall (obj : Cfg) (name : string) (c : Cfg),
    (forall kids, getattr_path obj path <> Ok (Node kids)) ->
    setattr_path obj path name c = Raise AttributeError.
Proof.
  induction path as [| a path IH]; intros obj name c H;
    cbn [getattr_path setattr_path] in *.
  - destruct obj as [v | kids]; [reflexivity |].
    now contradiction (H kids).
  - destruct (getattr obj a) as [inner | e] eqn:G; cbn [bind] in *.
    + rewrite (IH inner name c H). reflexivity.
    + destruct obj as [| okids]; cbn [getattr] in G; [congruence |].
      destruct (lookup a okids); congruence.
Qed.

Lemma setattr_path_inv (path : list string) (obj obj' : Cfg) (name : string)
    (c : Cfg) :
  setattr_path obj path name c = Ok obj' ->
  exists kids,
    getattr_path obj path = Ok (Node kids)
    /\ getattr_path obj' path = Ok (Node (set_item name c kids)).
Proof.
  intro H.
  destruct (getattr_path obj path) as [[v | kids] | e] eqn:G.
  - rewrite setattr_path_not_node in H; [discriminate |].
    intros kids E. congruence.
  - destruct (setattr_path_node path obj name c kids G) as [o' [S G']].
    rewrite S in H. inversion H; subst o'. eauto.
  - rewrite setattr_path_not_node in H; [discriminate |].
    intros kids E. congruence.
Qed.

Lemma is_prefix_refl (p : list string) : is_prefix p p = true.
Proof.
  induction p as [| a p IH]; cbn [is_prefix]; [reflexivity |].
  now rewrite String.eqb_refl, IH.
Qed.

(** An assignment leaves every attribute apart from the assigned one as
    it was. *)
Lemma getattr_path_setattr_path_apart (path : list string) :
  forall (obj obj' : Cfg) (name : string) (c : Cfg) (q : list string),
    setattr_path obj path name c = Ok obj' ->
    apart q (path ++ [name]) = true ->
    getattr_path obj' q = getattr_path obj q.
Proof.
  unfold apart.
  induction path as [| a path IH]; intros obj obj' name c q H A;
    cbn [setattr_path app] in *.
  - destruct q as [| b q]; [discriminate A |].
    cbn [is_prefix] in A. rewrite (String.eqb_sym name b) in A.
    destruct (String.eqb b name) eqn:E.
    + cbn [andb negb] in A. rewrite andb_false_r in A. discriminate A.
    + apply String.eqb_neq in E. cbn [getattr_path].
      now rewrite (getattr_setattr_other _ _ _ _ _ E H).
  - destruct (getattr obj a) as [inner |] eqn:G; cbn [bind] in H; [| discriminate].
    destruct (setattr_path inner path name c) as [inner' |] eqn:S;
      cbn [bind] in H; [| discriminate].
    destruct obj as [| kids]; [discriminate |].
    inversion H; subst obj'. clear H.
    destruct q as [| b q]; [discriminate A |].
    cbn [is_prefix] in A. rewrite (String.eqb_sym a b) in A.
    cbn [getattr_path getattr].
    destruct (String.eqb b a) eqn:E.
    + apply String.eqb_eq in E. subst b.
      rewrite lookup_set_item_same. cbn [bind].
      cbn [getattr] in G. destruct (lookup a kids); [| discriminate].
      inversion G; subst. cbn [bind].
      apply (IH _ _ _ _ _ S). exact A.
    + apply String.eqb_neq in E. now rewrite lookup_set_item_other.
Qed.

End MoreYacsFacts.

Section MoreConfigureFacts.

Import Yacs Inference.

Variable literal_eval : string -> option value.
Variable load_cfg : string -> Result dict.
Variable deprecated_keys : list string.
Variable renamed_keys : list string.
Variable new_allowed : list string -> bool.

Local Abbreviation configure :=
  (configure_inference literal_eval load_cfg deprecated_keys renamed_keys
     new_allowed).
Local Abbreviation from_file :=
  (merge_from_file literal_eval load_cfg deprecated_keys new_allowed).
Local Abbreviation from_list :=
  (merge_from_list literal_eval deprecated_keys renamed_keys).

Lemma inference_settings_node (c2 : Cfg) (frustum : dict) :
  getattr_path c2 FRUSTUM3D = Ok (Node frustum) ->
  exists c',
    (c3 <- setattr_path c2 FRUSTUM3D "IS_LEVEL_64" (Leaf (VBool false)) ;;
     c4 <- setattr_path c3 FRUSTUM3D "IS_LEVEL_128" (Leaf (VBool false)) ;;
     c5 <- setattr_path c4 FRUSTUM3D "IS_LEVEL_256" (Leaf (VBool false)) ;;
     setattr_path c5 FRUSTUM3D "FIX" (Leaf (VBool true))) = Ok c'
    /\ getattr_path c' FRUSTUM3D = Ok (Node (with_inference_flags frustum)).
Proof.
  intro G.
  destruct (setattr_path_node FRUSTUM3D c2 "IS_LEVEL_64" (Leaf (VBool false)) _ G)
    as [c3 [S3 G3]].
  destruct (setattr_path_node FRUSTUM3D c3 "IS_LEVEL_128" (Leaf (VBool false)) _ G3)
    as [c4 [S4 G4]].
  destruct (setattr_path_node FRUSTUM3D c4 "IS_LEVEL_256" (Leaf (VBool false)) _ G4)
    as [c5 [S5 G5]].
  destruct (setattr_path_node FRUSTUM3D c5 "FIX" (Leaf (VBool true)) _ G5)
    as [c6 [S6 G6]].
  exists c6. rewrite S3. cbn [bind]. rewrite S4. cbn [bind].
  rewrite S5. cbn [bind]. split; [exact S6 | exact G6].
Qed.

(** X9. Once the two merges have gone through, the inference settings
    of [configure_inference] fail only when [MODEL.FRUSTUM3D] is missing
    or is not a node, with an [AttributeError]; otherwise
    [configure_inference] succeeds, whether or not the four flags existed
    and whatever their types were, and [MODEL.FRUSTUM3D] is the merged
    node with the four flags set. *)
Theorem configure_inference_needs_frustum_node (o : Opts) (config c0 c1 c2 : Cfg) :
  setattr config "OUTPUT_DIR" (Leaf (VStr (output o))) = Ok c0 ->
  from_file c0 (config_file o) = Ok c1 ->
  from_list c1 (opts o) = Ok c2 ->
  match getattr_path c2 FRUSTUM3D with
  | Ok (Node frustum) =>
      exists config',
        configure o config = Ok config'
        /\ getattr_path config' FRUSTUM3D = Ok (Node (with_inference_flags frustum))
  | _ => configure o config = Raise AttributeError
  end.
Proof.
  intros S0 M1 M2. unfold configure_inference.
  rewrite S0. cbn [bind]. rewrite M1. cbn [bind]. rewrite M2. cbn [bind].
  destruct (getattr_path c2 FRUSTUM3D) as [[v | frustum] | e] eqn:G.
  - rewrite setattr_path_not_node; [reflexivity |]. intros kids E. congruence.
  - now apply inference_settings_node.
  - rewrite setattr_path_not_node; [reflexivity |]. intros kids E. congruence.
Qed.

(** X10. [configure_inference] changes nothing else after the merges:
    every attribute apart from the four flags reads in the finalized
    configuration as it read when the two merges were done. *)
Theorem configure_inference_keeps_merged_settings (o : Opts)
    (config c0 c1 c2 config' : Cfg) (q : list string) :
  setattr config "OUTPUT_DIR" (Leaf (VStr (output o))) = Ok c0 ->
  from_file c0 (config_file o) = Ok c1 ->
  from_list c1 (opts o) = Ok c2 ->
  configure o config = Ok config' ->
  apart q ["MODEL"; "FRUSTUM3D"; "IS_LEVEL_64"] = true ->
  apart q ["MODEL"; "FRUSTUM3D"; "IS_LEVEL_128"] = true ->
  apart q ["MODEL"; "FRUSTUM3D"; "IS_LEVEL_256"] = true ->
  apart q ["MODEL"; "FRUSTUM3D"; "FIX"] = true ->
  getattr_path config' q = getattr_path c2 q.
Proof.
  intros S0 M1 M2 H A1 A2 A3 A4. unfold configure_inference in H.
  rewrite S0 in H. cbn [bind] in H. rewrite M1 in H. cbn [bind] in H.
  rewrite M2 in H. cbn [bind] in H.
  destruct (setattr_path c2 FRUSTUM3D "IS_LEVEL_64" _) as [c3 |] eqn:S3;
    [| discriminate].
  cbn [bind] in H.
  destruct (setattr_path c3 FRUSTUM3D "IS_LEVEL_128" _) as [c4 |] eqn:S4;
    [| discriminate].
  cbn [bind] in H.
  destruct (setattr_path c4 FRUSTUM3D "IS_LEVEL_256" _) as [c5 |] eqn:S5;
    [| discriminate].
  cbn [bind] in H.
  rewrite (getattr_path_setattr_path_apart _ _ _ _ _ q H A4).
  rewrite (getattr_path_setattr_path_apart _ _ _ _ _ q S5 A3).
  rewrite (getattr_path_setattr_path_apart _ _ _ _ _ q S4 A2).
  exact (getattr_path_setattr_path_apart _ _ _ _ _ q S3 A1).
Qed.

(** X11. [configure_inference] stops at the first failure: when the
    configuration file cannot be loaded its error is the outcome whatever
    the override list holds, and an override list of odd length never
    gives a configuration (after a file that merged, the outcome is an
    [AssertionError]). *)
Theorem configure_inference_early_failures (o : Opts) (config c0 : Cfg) :
  setattr config "OUTPUT_DIR" (Leaf (VStr (output o))) = Ok c0 ->
  (forall e, load_cfg (config_file o) = Raise e -> configure o config = Raise e)
  /\ (Nat.even (length (opts o)) = false ->
      (forall config', configure o config <> Ok config')
      /\ (forall c1, from_file c0 (config_file o) = Ok c1 ->
                     configure o config = Raise AssertionError)).
Proof.
  intro S0. unfold configure_inference. rewrite S0. cbn [bind]. split.
  - intros e F. unfold merge_from_file. rewrite F. reflexivity.
  - intro Odd.
    assert (L : forall c1, from_list c1 (opts o) = Raise AssertionError).
    { intro c1. unfold merge_from_list. now rewrite Odd. }
    split.
    + intros config' H.
      destruct (from_file _ _) as [c1 |]; cbn [bind] in H; [| discriminate].
      rewrite L in H. discriminate.
    + intros c1 F. rewrite F. cbn [bind]. now rewrite L.
Qed.

Local Abbreviation decode := (decode_cfg_value literal_eval).

Lemma check_and_coerce_leaf_into_node (r : value) (kids : dict) :
  check_and_coerce (Leaf r) (Node kids) = Raise ValueError.
Proof.
  destruct r; reflexivity.
Qed.

Lemma schema_set_item (k : string) (c old : Cfg) (kids : dict) :
  lookup k kids = Some old ->
  schema c = schema old ->
  schema (Node (set_item k c kids)) = schema (Node kids).
Proof.
  intros L E. cbn [schema]. f_equal.
  induction kids as [| [k' c'] kids IH]; [discriminate L |].
  cbn [lookup set_item] in *.
  destruct (String.eqb k k') eqn:F.
  - inversion L; subst c'. cbn [map fst snd]. now rewrite E.
  - cbn [map fst snd]. f_equal. now apply IH.
Qed.

(** One assignment of [merge_from_list]: where it succeeds the key
    names a leaf, and only the value of that leaf may differ afterwards. *)
Lemma assign_schema (keys : list string) :
  forall (d d' : Cfg) (v : string),
    assign literal_eval d keys v = Ok d' ->
    schema d' = schema d
    /\ exists w, getattr_path d keys = Ok (Leaf w).
Proof.
  induction keys as [| k1 keys IH]; intros d d' v H.
  - destruct d; discriminate H.
  - destruct d as [| kids]; [destruct keys; discriminate H |].
    destruct keys as [| k2 keys].
    + cbn [assign] in H.
      destruct (lookup k1 kids) as [old |] eqn:L; [| discriminate].
      destruct (check_and_coerce _ old) as [value |] eqn:C; [| discriminate].
      cbn [bind] in H. inversion H; subst d'. clear H.
      destruct old as [w | okids];
        [| rewrite check_and_coerce_leaf_into_node in C; discriminate].
      destruct (check_and_coerce_leaves _ _ _ C) as [w' [-> _]].
      split; [now apply (schema_set_item k1 _ (Leaf w)) |].
      exists w. cbn [getattr_path getattr]. now rewrite L.
    + rewrite assign_step in H.
      destruct (lookup k1 kids) as [inner |] eqn:L; [| discriminate].
      destruct (assign literal_eval inner (k2 :: keys) v) as [inner' |] eqn:A;
        [| discriminate].
      cbn [bind] in H. inversion H; subst d'. clear H.
      destruct (IH _ _ _ A) as [S [w G]].
      split; [now apply (schema_set_item k1 _ inner) |].
      exists w. cbn [getattr_path getattr]. rewrite L. cbn [bind]. exact G.
Qed.

Lemma lookup_schema (a : string) (kids : dict) :
  forall kids',
    map (fun kc => (fst kc, schema (snd kc))) kids
    = map (fun kc => (fst kc, schema (snd kc))) kids' ->
    match lookup a kids, lookup a kids' with
    | Some x, Some x' => schema x = schema x'
    | None, None => True
    | _, _ => False
    end.
Proof.
  induction kids as [| [k c] kids IH]; intros [| [k' c'] kids'] E;
    try discriminate E.
  - exact I.
  - cbn [map fst snd] in E. inversion E as [[Ek Ec Er]]. subst k'.
    cbn [lookup]. destruct (String.eqb a k); [exact Ec | now apply IH].
Qed.

(** Configurations of the same schema have leaves at the same keys. *)
Lemma getattr_path_leaf_schema (q : list string) :
  forall (c c' : Cfg) (w : value),
    schema c = schema c' ->
    getattr_path c q = Ok (Leaf w) ->
    exists w', getattr_path c' q = Ok (Leaf w').
Proof.
  induction q as [| a q IH]; intros c c' w E G; cbn [getattr_path] in *.
  - inversion G; subst c. destruct c' as [w' |]; [eauto | discriminate E].
  - destruct c as [| kids]; [discriminate G |].
    destruct c' as [| kids']; [discriminate E |].
    cbn [schema] in E. inversion E as [E'].
    pose proof (lookup_schema a kids kids' E') as L.
    cbn [getattr] in *.
    destruct (lookup a kids) as [x |]; [| discriminate G].
    destruct (lookup a kids') as [x' |]; [| contradiction].
    cbn [bind] in *. eapply IH; eassumption.
Qed.

Lemma merge_pairs_schema (l : list (string * string)) :
  forall (self self' : Cfg),
    merge_pairs literal_eval deprecated_keys renamed_keys self l = Ok self' ->
    schema self' = schema self
    /\ (forall k v, In (k, v) l -> mem k deprecated_keys = false ->
          exists w, getattr_path self (split_dot k) = Ok (Leaf w)).
Proof.
  induction l as [| [k v] rest IH]; intros self self' H; cbn [merge_pairs] in H.
  - inversion H; subst. split; [reflexivity | intros k v []].
  - destruct (merge_pair _ _ _ self (k, v)) as [s1 |] eqn:M; [| discriminate].
    cbn [bind] in H. destruct (IH _ _ H) as [S1 K1].
    unfold merge_pair in M.
    destruct (mem k deprecated_keys) eqn:D.
    + inversion M; subst s1. split; [exact S1 |].
      intros k' v' [E | I] D'; [inversion E; subst; congruence | eauto].
    + destruct (mem k renamed_keys); [discriminate |].
      destruct (assign_schema _ _ _ _ M) as [S0 [w G]].
      split; [congruence |].
      intros k' v' [E | I] D'.
      * inversion E; subst. eauto.
      * destruct (K1 _ _ I D') as [w1 G1].
        eapply getattr_path_leaf_schema; eassumption.
Qed.

(** X12. The override list can only replace the values of settings
    that exist: when [merge_from_list] succeeds, every key of the list
    that is not deprecated names a leaf of the configuration it was
    given, and the resulting configuration has the same names in the same
    order, nodes where there were nodes and leaves where there were
    leaves. *)
Theorem merge_from_list_keeps_schema (self self' : Cfg) (cfg_list : list string) :
  from_list self cfg_list = Ok self' ->
  schema self' = schema self
  /\ (forall k v, In (k, v) (pairs cfg_list) -> mem k deprecated_keys = false ->
        exists w, getattr_path self (split_dot k) = Ok (Leaf w)).
Proof.
  unfold merge_from_list. intro H.
  destruct (assert _); [| discriminate]. cbn [bind] in H.
  now apply merge_pairs_schema.
Qed.

Lemma getattr_path_of_leaf (w : value) (q : list string) (x : Cfg) :
  getattr_path (Leaf w) q = Ok x -> q = [] /\ x = Leaf w.
Proof.
  destruct q as [| a q]; cbn [getattr_path getattr bind]; intro H.
  - inversion H. auto.
  - discriminate.
Qed.

(** One assignment of [merge_from_list] at the key path [keys]: the leaf
    there is replaced by what the type check accepts, and every other
    leaf keeps its value. *)
Lemma assign_at (keys : list string) :
  forall (d d' : Cfg) (v : string),
    assign literal_eval d keys v = Ok d' ->
    (exists w, getattr_path d' keys = Ok (Leaf w)
               /\ accepted_as (decode (VStr v)) w)
    /\ (forall q w, q <> keys -> getattr_path d q = Ok (Leaf w) ->
                    getattr_path d' q = Ok (Leaf w)).
Proof.
  induction keys as [| k1 keys IH]; intros d d' v H.
  - destruct d; discriminate H.
  - destruct d as [| kids]; [destruct keys; discriminate H |].
    destruct keys as [| k2 keys].
    + cbn [assign] in H.
      destruct (lookup k1 kids) as [old |] eqn:L; [| discriminate].
      destruct (check_and_coerce _ old) as [value |] eqn:C; [| discriminate].
      cbn [bind] in H. inversion H; subst d'. clear H.
      destruct old as [w0 | okids];
        [| rewrite check_and_coerce_leaf_into_node in C; discriminate].
      destruct (check_and_coerce_leaves _ _ _ C) as [w' [-> A]].
      split.
      * exists w'. split; [| exact A].
        cbn [getattr_path getattr]. now rewrite lookup_set_item_same.
      * intros q w N G. destruct q as [| b q]; [discriminate G |].
        cbn [getattr_path getattr] in *.
        destruct (string_dec b k1) as [-> | Nb].
        -- rewrite L in G. cbn [bind] in G.
           apply getattr_path_of_leaf in G. destruct G as [-> _].
           now contradiction N.
        -- now rewrite lookup_set_item_other.
    + rewrite assign_step in H.
      destruct (lookup k1 kids) as [inner |] eqn:L; [| discriminate].
      destruct (assign literal_eval inner (k2 :: keys) v) as [inner' |] eqn:A;
        [| discriminate].
      cbn [bind] in H. inversion H; subst d'. clear H.
      destruct (IH _ _ _ A) as [[w [G Acc]] Frame].
      split.
      * exists w. split; [| exact Acc].
        cbn [getattr_path getattr]. rewrite lookup_set_item_same.
        cbn [bind]. exact G.
      * intros q w0 N G0. destruct q as [| b q]; [discriminate G0 |].
        cbn [getattr_path getattr] in *.
        destruct (string_dec b k1) as [-> | Nb].
        -- rewrite L in G0. cbn [bind] in G0.
           rewrite lookup_set_item_same. cbn [bind].
           apply Frame; [congruence | exact G0].
        -- now rewrite lookup_set_item_other.
Qed.

Lemma merge_pairs_last_override (l : list (string * string)) :
  forall (self self' : Cfg) (q : list string) (w : value),
    merge_pairs literal_eval deprecated_keys renamed_keys self l = Ok self' ->
    getattr_path self q = Ok (Leaf w) ->
    exists w',
      getattr_path self' q = Ok (Leaf w')
      /\ match last_override deprecated_keys q l with
         | Some v => accepted_as (decode (VStr v)) w'
         | None => w' = w
         end.
Proof.
  induction l as [| [k v] rest IH]; intros self self' q w H G;
    cbn [merge_pairs last_override] in *.
  - inversion H; subst. eauto.
  - destruct (merge_pair _ _ _ self (k, v)) as [s1 |] eqn:M; [| discriminate].
    cbn [bind] in H. unfold merge_pair in M.
    assert (X : exists w1,
               getattr_path s1 q = Ok (Leaf w1)
               /\ if negb (mem k deprecated_keys)
                     && (if list_eq_dec string_dec (split_dot k) q
                         then true else false)
                  then accepted_as (decode (VStr v)) w1
                  else w1 = w).
    { destruct (mem k deprecated_keys); cbn [negb andb].
      - inversion M; subst s1. eauto.
      - destruct (mem k renamed_keys); [discriminate |].
        destruct (assign_at _ _ _ _ M) as [[w1 [G1 A1]] Frame].
        destruct (list_eq_dec string_dec (split_dot k) q) as [<- | N].
        + eauto.
        + exists w. split; [| reflexivity]. apply Frame; [congruence | exact G]. }
    destruct X as [w1 [G1 A1]].
    destruct (IH _ _ _ _ H G1) as [w' [G' A']].
    exists w'. split; [exact G' |].
    destruct (last_override deprecated_keys q rest); [exact A' |].
    subst w'. revert A1.
    destruct (negb (mem k deprecated_keys)
              && (if list_eq_dec string_dec (split_dot k) q then true else false));
      intro A1; exact A1.
Qed.

(** The last override of a setting wins, and a setting the
    override list does not name stays: after [merge_from_list] a leaf of
    the configuration holds the value of the last pair that names it
    (and is not deprecated), as the type check accepted it, or else the
    value it had. *)
Lemma merge_from_list_last_override_wins (self self' : Cfg)
    (cfg_list : list string) (q : list string) (w : value) :
  from_list self cfg_list = Ok self' ->
  getattr_path self q = Ok (Leaf w) ->
  exists w',
    getattr_path self' q = Ok (Leaf w')
    /\ match last_override deprecated_keys q (pairs cfg_list) with
       | Some v => accepted_as (decode (VStr v)) w'
       | None => w' = w
       end.
Proof.
  unfold merge_from_list. intros H G.
  destruct (assert _); [| discriminate]. cbn [bind] in H.
  now apply (merge_pairs_last_override _ self).
Qed.

Lemma file_leaf_node (ka : dict) (k : string) (q' : list string) :
  file_leaf (Node ka) (k :: q') = file_entries ka k q'.
Proof.
  cbn [file_leaf].
  induction ka as [| [k' v_] rest IH]; [reflexivity |].
  cbn [file_entries]. now rewrite <- IH.
Qed.

Lemma check_and_coerce_node_needs_node (ka : dict) (old c : Cfg) :
  check_and_coerce (Node ka) old = Ok c -> exists kb, old = Node kb.
Proof.
  destruct old as [w | kb]; [| eauto].
  rewrite check_and_coerce_node_into_leaf. discriminate.
Qed.

(** The entries of a file merged into a node: the leaf at [k :: q']
    ends with what the last entry leading to it holds, or stays. *)
Lemma merge_a_into_b_leaf (q : list string) :
  forall (a b b' : Cfg) (key_list : list string) (w : value),
    merge_a_into_b literal_eval deprecated_keys new_allowed a b key_list = Ok b' ->
    getattr_path b q = Ok (Leaf w) ->
    exists w',
      getattr_path b' q = Ok (Leaf w')
      /\ match file_leaf a q with
         | Some x => accepted_as (decode x) w'
         | None => w' = w
         end.
Proof.
  induction q as [| k q' IHq]; intros a b b' key_list w H G.
  - cbn [getattr_path] in G. inversion G; subst b.
    destruct a; discriminate H.
  - destruct a as [| ka]; [discriminate H |].
    destruct b as [| kb]; [discriminate H |].
    rewrite merge_a_into_b_nodes in H.
    destruct (merge_items _ _ _ ka kb key_list) as [kb' |] eqn:I;
      [| discriminate].
    cbn [bind] in H. inversion H; subst b'. clear H.
    rewrite file_leaf_node.
    revert kb kb' w I G.
    induction ka as [| [k' v_] rest IHka]; intros kb kb' w I G;
      cbn [merge_items file_entries] in *.
    + inversion I; subst. eauto.
    + match type of I with
      | bind ?step _ = _ => destruct step as [kb1 |] eqn:S
      end; cbn [bind] in I; [| discriminate].
      assert (X : exists w1,
                 getattr_path (Node kb1) (k :: q') = Ok (Leaf w1)
                 /\ match (if String.eqb k k' then file_leaf v_ q' else None) with
                    | Some x => accepted_as (decode x) w1
                    | None => w1 = w
                    end).
      { cbn [getattr_path getattr] in G |- *.
        destruct (String.eqb k k') eqn:E.
        - apply String.eqb_eq in E. subst k'.
          destruct (lookup k kb) as [old |] eqn:L; [| discriminate G].
          cbn [bind] in G.
          destruct v_ as [x | ka'].
          + destruct (check_and_coerce _ old) as [v |] eqn:C; [| discriminate].
            cbn [bind] in S. inversion S; subst kb1.
            rewrite lookup_set_item_same. cbn [bind].
            destruct old as [w0 | okids];
              [| rewrite check_and_coerce_leaf_into_node in C; discriminate].
            apply getattr_path_of_leaf in G. destruct G as [-> G].
            destruct (check_and_coerce_leaves _ _ _ C) as [w1 [-> A]].
            exists w1. split; [reflexivity | exact A].
          + destruct (check_and_coerce _ old) as [v |] eqn:C; [| discriminate].
            cbn [bind] in S.
            destruct (merge_a_into_b _ _ _ (Node ka') old _) as [sub |] eqn:M;
              [| discriminate].
            cbn [bind] in S. inversion S; subst kb1.
            rewrite lookup_set_item_same. cbn [bind].
            exact (IHq _ _ _ _ _ M G).
        - apply String.eqb_neq in E. exists w. split; [| reflexivity].
          assert (K : lookup k kb1 = lookup k kb).
          { destruct (lookup k' kb) as [old |].
            - destruct v_ as [x | ka'].
              + destruct (check_and_coerce _ old) as [v |]; [| discriminate].
                cbn [bind] in S. inversion S; subst kb1.
                now apply lookup_set_item_other.
              + destruct (check_and_coerce _ old) as [v |]; [| discriminate].
                cbn [bind] in S.
                destruct (merge_a_into_b _ _ _ _ _ _) as [sub |]; [| discriminate].
                cbn [bind] in S. inversion S; subst kb1.
                now apply lookup_set_item_other.
            - destruct (new_allowed key_list).
              + inversion S; subst kb1. now apply lookup_set_item_other.
              + destruct (mem _ deprecated_keys); [| discriminate].
                now inversion S. }
          now rewrite K. }
      destruct X as [w1 [G1 A1]].
      destruct (IHka _ _ _ I G1) as [w' [G' A']].
      exists w'. split; [exact G' |].
      destruct (file_entries rest k q'); [exact A' |].
      subst w'. exact A1.
Qed.

(** What the configuration file says wins over the defaults, and
    a setting the file does not name stays: after [merge_from_file] a
    leaf of the configuration holds the value the file gives for its key
    path, as the type check accepted it, or else the value it had. *)
Lemma merge_from_file_overrides_defaults (self self' : Cfg)
    (cfg_filename : string) (file : dict) (q : list string) (w : value) :
  load_cfg cfg_filename = Ok file ->
  from_file self cfg_filename = Ok self' ->
  getattr_path self q = Ok (Leaf w) ->
  exists w',
    getattr_path self' q = Ok (Leaf w')
    /\ match file_leaf (Node file) q with
       | Some x => accepted_as (decode x) w'
       | None => w' = w
       end.
Proof.
  intros F H G. unfold merge_from_file in H. rewrite F in H. cbn [bind] in H.
  exact (merge_a_into_b_leaf q _ _ _ _ w H G).
Qed.

(** X17. The merge order of [configure_inference], for every setting
    but the four flags: a leaf of the configuration (with the output
    directory of the command line in it) ends with the value of the last
    override that names it, else with the value the configuration file
    gives it, else with its default. *)
Theorem configure_inference_later_wins (o : Opts) (config c0 config' : Cfg)
    (q : list string) (w : value) :
  setattr config "OUTPUT_DIR" (Leaf (VStr (output o))) = Ok c0 ->
  configure o config = Ok config' ->
  getattr_path c0 q = Ok (Leaf w) ->
  apart q ["MODEL"; "FRUSTUM3D"; "IS_LEVEL_64"] = true ->
  apart q ["MODEL"; "FRUSTUM3D"; "IS_LEVEL_128"] = true ->
  apart q ["MODEL"; "FRUSTUM3D"; "IS_LEVEL_256"] = true ->
  apart q ["MODEL"; "FRUSTUM3D"; "FIX"] = true ->
  exists w',
    getattr_path config' q = Ok (Leaf w')
    /\ match last_override deprecated_keys q (pairs (opts o)) with
       | Some v => accepted_as (decode (VStr v)) w'
       | None =>
           forall file, load_cfg (config_file o) = Ok file ->
             match file_leaf (Node file) q with
             | Some x => accepted_as (decode x) w'
             | None => w' = w
             end
       end.
Proof.
  intros S0 H G A1 A2 A3 A4. unfold configure_inference in H.
  rewrite S0 in H. cbn [bind] in H.
  destruct (from_file c0 (config_file o)) as [c1 |] eqn:M1; [| discriminate].
  cbn [bind] in H.
  destruct (from_list c1 (opts o)) as [c2 |] eqn:M2; [| discriminate].
  cbn [bind] in H.
  destruct (setattr_path c2 FRUSTUM3D "IS_LEVEL_64" _) as [c3 |] eqn:S3;
    [| discriminate].
  cbn [bind] in H.
  destruct (setattr_path c3 FRUSTUM3D "IS_LEVEL_128" _) as [c4 |] eqn:S4;
    [| discriminate].
  cbn [bind] in H.
  destruct (setattr_path c4 FRUSTUM3D "IS_LEVEL_256" _) as [c5 |] eqn:S5;
    [| discriminate].
  cbn [bind] in H.
  rewrite (getattr_path_setattr_path_apart _ _ _ _ _ q H A4).
  rewrite (getattr_path_setattr_path_apart _ _ _ _ _ q S5 A3).
  rewrite (getattr_path_setattr_path_apart _ _ _ _ _ q S4 A2).
  rewrite (getattr_path_setattr_path_apart _ _ _ _ _ q S3 A1).
  unfold merge_from_file in M1.
  destruct (load_cfg (config_file o)) as [file |] eqn:F; [| discriminate].
  cbn [bind] in M1.
  destruct (merge_a_into_b_leaf q _ _ _ _ w M1 G) as [w1 [G1 B1]].
  unfold merge_from_list in M2.
  destruct (assert _); [| discriminate]. cbn [bind] in M2.
  destruct (merge_pairs_last_override _ _ _ q w1 M2 G1) as [w2 [G2 B2]].
  exists w2. split; [exact G2 |].
  destruct (last_override deprecated_keys q (pairs (opts o))); [exact B2 |].
  subst w2. intros file' F'. inversion F'; subst file'. exact B1.
Qed.

End MoreConfigureFacts.

(** * Further properties of the exporter *)

Section MoreTensorFacts.

Import Tensor.

Lemma NoDup_map_injective {A B : Type} (f : A -> B) (l : list A) :
  (forall x y, f x = f y -> x = y) -> NoDup l -> NoDup (map f l).
Proof.
  intros Inj N. induction N as [| x l X N IH]; cbn [map].
  - constructor.
  - constructor; [| exact IH].
    intro I. apply in_map_iff in I. destruct I as [y [E Y]].
    apply Inj in E. subst y. contradiction.
Qed.

Lemma NoDup_indices (shape : list nat) : NoDup (indices shape).
Proof.
  induction shape as [| d rest IH]; cbn [indices].
  - constructor; [intros [] | constructor].
  - generalize (seq_NoDup d 0). generalize (seq 0 d) as l.
    induction l as [| i l IHl]; intro N; cbn [flat_map]; [constructor |].
    inversion N as [| ? ? Hi Hl]; subst.
    apply NoDup_app.
    + apply NoDup_map_injective; [| exact IH]. intros x y E. now inversion E.
    + now apply IHl.
    + intros a Ha Hb. apply in_map_iff in Ha. destruct Ha as [t [<- _]].
      apply in_flat_map in Hb. destruct Hb as [j [Hj Hm]].
      apply in_map_iff in Hm. destruct Hm as [t' [E _]].
      inversion E; subst. contradiction.
Qed.

Lemma NoDup_nonzero (x : t bool) : NoDup (nonzero x).
Proof.
  unfold nonzero. apply NoDup_filter. apply NoDup_indices.
Qed.

End MoreTensorFacts.

Section MorePathFacts.

Import Posix.

Lemma split_sep_nonempty (s : string) : split_sep s <> [].
Proof.
  destruct s as [| c s]; cbn [split_sep]; [discriminate |].
  destruct (Ascii.eqb c "/"); [discriminate |].
  destruct (split_sep s); discriminate.
Qed.

Lemma split_sep_trailing (s : string) :
  split_sep (s ++ "/") = (split_sep s ++ [""])%list.
Proof.
  induction s as [| c s IH]; [reflexivity |].
  cbn [String.append split_sep]. rewrite IH.
  destruct (Ascii.eqb c "/"); [reflexivity |].
  pose proof (split_sep_nonempty s) as N.
  destruct (split_sep s) as [| h t]; [congruence | reflexivity].
Qed.

Lemma lstrip_sep_trailing (s : string) :
  all_sep s = false ->
  lstrip_sep (s ++ "/") = (fst (lstrip_sep s), (snd (lstrip_sep s) ++ "/")%string).
Proof.
  induction s as [| c s IH]; cbn [all_sep]; [discriminate |].
  cbn [String.append lstrip_sep].
  destruct (Ascii.eqb c "/"); cbn [andb]; intro H.
  - rewrite (IH H). destruct (lstrip_sep s). reflexivity.
  - reflexivity.
Qed.

Lemma filter_keep_trailing (l : list string) :
  filter keep (l ++ [""]) = filter keep l.
Proof.
  rewrite filter_app. cbn. apply app_nil_r.
Qed.

(** A trailing separator does not change the path, unless the string
    holds separators only. *)
Lemma parse_trailing_sep (s : string) :
  all_sep s = false -> parse (s ++ "/") = parse s.
Proof.
  intro H. unfold parse, splitroot. rewrite (lstrip_sep_trailing s H).
  destruct (lstrip_sep s) as [n rel]. cbn [fst snd].
  destruct n as [| [| [| n]]];
    now rewrite split_sep_trailing, filter_keep_trailing.
Qed.

End MorePathFacts.

Section MoreExporterFacts.

Import Yacs Inference Exporter.

Variable Blob : Type.
Variable dense_default : Q.
Variable literal_eval : string -> option value.
Variable load_cfg : string -> Result dict.
Variable deprecated_keys : list string.
Variable renamed_keys : list string.
Variable new_allowed : list string -> bool.
Variable Loaded : Type.
Variable load : Opts -> Result Loaded.
Variable inference : Loaded -> Matrix -> Result (Results Blob).

Local Abbreviation visualize := (@visualize_results Blob dense_default).
Local Abbreviation grids := (@dense_grids Blob dense_default).
Local Abbreviation configure :=
  (configure_inference literal_eval load_cfg deprecated_keys renamed_keys
     new_allowed).
Local Abbreviation run_main :=
  (main dense_default literal_eval load_cfg deprecated_keys renamed_keys
     new_allowed load inference).



Ltac equal_paths :=
  repeat match goal with
         | |- context [Posix.Path_eqb ?a ?a] =>
             replace (Posix.Path_eqb a a) with true
               by (symmetry; now apply Path_eqb_eq)
         end.

Ltac unequal_paths :=
  repeat match goal with
         | |- context [Posix.Path_eqb ?a ?b] =>
             let E := fresh "E" in
             destruct (Posix.Path_eqb a b) eqn:E;
             [ apply Path_eqb_last in E; cbn [Posix.names] in E;
               repeat rewrite last_last in E; cbn [last] in E; discriminate E | ]
         end.

Ltac output_paths p :=
  rewrite ?join_depth_prediction,
    ?(join_name p "depth_map.png" eq_refl),
    ?(join_name p "detection.png" eq_refl),
    ?(join_name p "projection.ply" eq_refl),
    ?(join_name p "sparse_coordinates.ply" eq_refl),
    ?(join_name p "points_geometry.ply" eq_refl),
    ?(join_name p "surface_pcd.ply" eq_refl),
    ?(join_name p "mesh_geometry.ply" eq_refl),
    ?(join_name p "mesh_semantics.ply" eq_refl),
    ?(join_name p "mesh_instances.ply" eq_refl).

(** Among the events of a call that gets to the end each of the nine
    names is written once, [surface_pcd.ply] twice, and the depth
    point cloud once. *)
Lemma events_do_not_collide (results : Results Blob) (g : Grids)
    (p : Posix.Path) (n : string) :
  In n output_names ->
  length (written_to (Posix.join p n)
            (first_events results p ++ last_events results g p))
  = (if String.eqb n "surface_pcd.ply" then 2 else 1)%nat
  /\ length (written_to (Posix.join p "/depth_prediction.ply")
               (first_events results p ++ last_events results g p))
     = 1%nat.
Proof.
  intro I. split.
  - unfold output_names in I. cbn [In] in I.
    repeat (destruct I as [<- | I];
            [ unfold first_events, last_events, sparse_event, written_to;
              output_paths p;
              cbn [app flat_map]; equal_paths; unequal_paths; reflexivity | ]).
    contradiction.
  - unfold first_events, last_events, sparse_event, written_to.
    output_paths p.
    cbn [app flat_map]. equal_paths. unequal_paths. reflexivity.
Qed.

(** X14. No output takes the place of another: whatever the output
    directory is, a call of [visualize_results] that raises nothing has
    written each of the nine names once, except [surface_pcd.ply],
    which it has written twice, and has written the depth point cloud
    once, to a path that is none of theirs. *)
Theorem outputs_do_not_collide (config : Cfg) (results : Results Blob)
    (s : string) (tr' : list (Event Blob)) (n : string) :
  visualize config results (Leaf (VStr s)) [] = (tr', Ok tt) ->
  In n output_names ->
  length (written_to (Posix.join (Posix.parse s) n) tr')
  = (if String.eqb n "surface_pcd.ply" then 2 else 1)%nat
  /\ length (written_to (Posix.join (Posix.parse s) "/depth_prediction.ply")
               tr')
     = 1%nat
  /\ Posix.join (Posix.parse s) "/depth_prediction.ply"
     <> Posix.join (Posix.parse s) n.
Proof.
  intros H I. destruct (visualize_results_ok _ _ _ _ _ _ _ H) as [g [_ ->]].
  cbn [app].
  destruct (events_do_not_collide results g (Posix.parse s) n I) as [A B].
  split; [exact A |]. split; [exact B |].
  rewrite join_depth_prediction.
  rewrite (join_name _ n (output_names_plain n I)).
  intro E. apply (f_equal (fun p => last (Posix.names p) "")) in E.
  cbn [Posix.names last] in E. rewrite last_last in E. subst n.
  unfold output_names in I. cbn [In] in I.
  repeat (destruct I as [I | I]; [discriminate I |]). contradiction.
Qed.

(** X15. No point is written twice: the rows of [points_geometry.ply]
    are pairwise distinct, [nonzero] giving every index once and
    [squeeze] keeping the indices of different voxels apart. *)
Theorem surface_points_are_distinct (config : Cfg) (results : Results Blob)
    (s : string) (tr tr' : list (Event Blob)) :
  visualize config results (Leaf (VStr s)) tr = (tr', Ok tt) ->
  exists points,
    written_to (Posix.join (Posix.parse s) "points_geometry.ply") tr'
    = (written_to (Posix.join (Posix.parse s) "points_geometry.ply") tr
       ++ [PointCloud Blob points])%list
    /\ NoDup points.
Proof.
  intro H. destruct (visualize_results_ok _ _ _ _ _ _ _ H) as [g [_ ->]].
  exists (surface_points (surface g) (iso g)). split.
  - rewrite written_to_app. f_equal. apply written_to_points_geometry.
  - unfold surface_points. apply NoDup_map_injective.
    + apply map_of_nat_injective.
    + apply NoDup_nonzero.
Qed.

(** X16. A separator at the end of the output directory makes no
    difference to what [visualize_results] does, unless the string holds
    separators only. *)
Theorem trailing_separator_is_ignored (config : Cfg) (results : Results Blob)
    (s : string) (tr : list (Event Blob)) :
  Posix.all_sep s = false ->
  visualize config results (Leaf (VStr (s ++ "/"))) tr
  = visualize config results (Leaf (VStr s)) tr.
Proof.
  intro H. rewrite !visualize_results_events.
  now rewrite (parse_trailing_sep s H).
Qed.

Lemma indices_length (shape idx : list nat) :
  In idx (Tensor.indices shape) -> length idx = length shape.
Proof.
  intro H. apply indices_inside in H. unfold Tensor.inside in H.
  induction H; cbn [length]; congruence.
Qed.

Lemma squeezed_length (shape : list nat) :
  (length (Tensor.squeezed shape) <= length shape)%nat.
Proof.
  unfold Tensor.squeezed. apply filter_length_le.
Qed.

(** X18. Every point written has one coordinate for each grid
    dimension that is not of size one, so at most three, the batch and
    channel dimensions being of size one. *)
Theorem surface_points_columns (config : Cfg) (results : Results Blob)
    (g : Grids) (q : list Z) :
  grids config results = Ok g ->
  In q (surface_points (surface g) (iso g)) ->
  exists dims,
    dense_dimensions config = Ok ([1; 1]%nat ++ dims)%list
    /\ length dims = 3%nat
    /\ length q = length (Tensor.squeezed dims)
    /\ (length q <= 3)%nat.
Proof.
  intros H I.
  destruct (dense_grids_inv _ _ _ _ _ H) as [dd [trunc [D [_ [_ [S1 _]]]]]].
  destruct (dense_dimensions_inv _ _ D) as [dims ->].
  destruct (dense_inv _ _ _ _ _ S1) as [L [Sh _]].
  exists dims. split; [exact D |].
  assert (L3 : length dims = 3%nat) by (cbn [length app] in L; lia).
  split; [exact L3 |].
  unfold surface_points in I. apply in_map_iff in I.
  destruct I as [r [<- R]]. rewrite length_map.
  unfold Tensor.nonzero in R. apply filter_In in R. destruct R as [R _].
  apply indices_length in R.
  cbn [Tensor.squeeze Tensor.lt_scalar Tensor.shape] in R. rewrite Sh in R.
  assert (E : Tensor.squeezed ([1; 1]%nat ++ dims) = Tensor.squeezed dims)
    by reflexivity.
  rewrite E in R. split; [exact R |].
  rewrite R, <- L3. apply squeezed_length.
Qed.

End MoreExporterFacts.

(** * More runs on the sample *)

Section MoreSampleRuns.

Import Yacs Inference Exporter.

Local Abbreviation sample_configure :=
  (configure_inference Sample.literal_eval Sample.load_cfg [] []
     Sample.no_new_keys).

Lemma sample_with_output :
  setattr Sample.config "OUTPUT_DIR" (Leaf (VStr (output Sample.opts)))
  = Ok Sample.with_output.
Proof.
  reflexivity.
Qed.

Lemma sample_after_file :
  merge_from_file Sample.literal_eval Sample.load_cfg [] Sample.no_new_keys
    Sample.with_output (config_file Sample.opts) = Ok Sample.after_file.
Proof.
  vm_compute. reflexivity.
Qed.

Lemma sample_after_list :
  merge_from_list Sample.literal_eval [] [] Sample.after_file (opts Sample.opts)
  = Ok Sample.after_list.
Proof.
  vm_compute. reflexivity.
Qed.

Lemma configure_inference_needs_frustum_node_witness :
  exists config' frustum,
    getattr_path Sample.after_list FRUSTUM3D = Ok (Node frustum)
    /\ sample_configure Sample.opts Sample.config = Ok config'
    /\ getattr_path config' FRUSTUM3D = Ok (Node (with_inference_flags frustum)).
Proof.
  pose proof (configure_inference_needs_frustum_node Sample.literal_eval
                Sample.load_cfg [] [] Sample.no_new_keys Sample.opts
                Sample.config _ _ _ sample_with_output sample_after_file
                sample_after_list) as H.
  destruct (getattr_path Sample.after_list FRUSTUM3D) as [[v | frustum] | e] eqn:G;
    try (vm_compute in G; discriminate G).
  destruct H as [config' [C F]].
  exists config', frustum. auto.
Defined.

Lemma configure_inference_keeps_merged_settings_witness :
  exists config',
    sample_configure Sample.opts Sample.config = Ok config'
    /\ getattr_path config' ["MODEL"; "FRUSTUM3D"; "TRUNCATION"]
       = getattr_path Sample.after_list ["MODEL"; "FRUSTUM3D"; "TRUNCATION"].
Proof.
  destruct (sample_configure Sample.opts Sample.config) as [c |] eqn:E.
  - exists c. split; [reflexivity |].
    exact (configure_inference_keeps_merged_settings Sample.literal_eval
             Sample.load_cfg [] [] Sample.no_new_keys Sample.opts Sample.config
             _ _ _ c ["MODEL"; "FRUSTUM3D"; "TRUNCATION"]
             sample_with_output sample_after_file sample_after_list E
             eq_refl eq_refl eq_refl eq_refl).
  - vm_compute in E. discriminate E.
Defined.

Lemma configure_inference_early_failures_witness :
  sample_configure Sample.odd_opts Sample.config = Raise AssertionError.
Proof.
  destruct (configure_inference_early_failures Sample.literal_eval
              Sample.load_cfg [] [] Sample.no_new_keys Sample.odd_opts
              Sample.config Sample.with_output sample_with_output) as [_ H].
  destruct (H eq_refl) as [_ A].
  exact (A Sample.after_file sample_after_file).
Defined.

Lemma merge_from_list_keeps_schema_witness :
  schema Sample.after_list = schema Sample.after_file
  /\ exists w,
       getattr_path Sample.after_file (split_dot "MODEL.FRUSTUM3D.FIX")
       = Ok (Leaf w).
Proof.
  destruct (merge_from_list_keeps_schema Sample.literal_eval [] []
              Sample.after_file Sample.after_list (opts Sample.opts)
              sample_after_list) as [S K].
  split; [exact S |].
  apply (K "MODEL.FRUSTUM3D.FIX" "False"); [| reflexivity].
  cbn. tauto.
Defined.

Local Abbreviation sample_run :=
  (visualize_results 0 Sample.config Sample.results (Leaf (VStr "/")) []).

Lemma sample_run_ok : sample_run = (fst sample_run, Ok tt).
Proof.
  vm_compute. reflexivity.
Qed.

Lemma outputs_do_not_collide_witness :
  length (written_to (Posix.join (Posix.parse "/") "mesh_geometry.ply")
            (fst sample_run))
  = 1%nat
  /\ length (written_to (Posix.join (Posix.parse "/") "/depth_prediction.ply")
               (fst sample_run))
     = 1%nat.
Proof.
  assert (I : In "mesh_geometry.ply" output_names)
    by (unfold output_names; cbn [In]; tauto).
  destruct (outputs_do_not_collide unit 0 Sample.config Sample.results "/"
              (fst sample_run) "mesh_geometry.ply" sample_run_ok I)
    as [A [B _]].
  split; [exact A | exact B].
Defined.

Lemma surface_points_are_distinct_witness :
  exists points,
    written_to (Posix.join (Posix.parse "/") "points_geometry.ply")
      (fst sample_run)
    = [PointCloud unit points]
    /\ NoDup points.
Proof.
  exact (surface_points_are_distinct unit 0 Sample.config Sample.results "/"
           [] (fst sample_run) sample_run_ok).
Defined.


Lemma trailing_separator_is_ignored_witness :
  visualize_results 0 Sample.config Sample.results (Leaf (VStr "output/")) []
  = visualize_results 0 Sample.config Sample.results (Leaf (VStr "output")) [].
Proof.
  exact (trailing_separator_is_ignored unit 0 Sample.config Sample.results
           "output" [] eq_refl).
Defined.

Lemma configure_inference_later_wins_witness :
  exists config' w',
    sample_configure Sample.opts Sample.config = Ok config'
    /\ getattr_path Sample.with_output ["OUTPUT_DIR"]
       = Ok (Leaf (VStr "output/sample_0007/"))
    /\ getattr_path config' ["OUTPUT_DIR"] = Ok (Leaf w')
    /\ accepted_as (VStr "elsewhere") w'.
Proof.
  destruct (sample_configure Sample.opts Sample.config) as [c |] eqn:E.
  - destruct (configure_inference_later_wins Sample.literal_eval
                Sample.load_cfg [] [] Sample.no_new_keys Sample.opts
                Sample.config Sample.with_output c
                ["OUTPUT_DIR"] (VStr "output/sample_0007/")
                sample_with_output E eq_refl eq_refl eq_refl eq_refl eq_refl)
      as [w' [G A]].
    assert (L : last_override [] ["OUTPUT_DIR"] (pairs (opts Sample.opts))
                = Some "elsewhere") by reflexivity.
    rewrite L in A.
    exists c, w'. split; [reflexivity |]. split; [reflexivity |].
    split; [exact G | exact A].
  - vm_compute in E. discriminate E.
Defined.

Lemma surface_points_columns_witness :
  exists g,
    dense_grids 0 Sample.config Sample.results = Ok g
    /\ (length [0; 0]%Z <= 3)%nat.
Proof.
  destruct (dense_grids 0 Sample.config Sample.results) as [g |] eqn:E.
  - exists g. split; [reflexivity |].
    assert (I : In [0; 0]%Z (surface_points (surface g) (iso g))).
    { vm_compute in E. inversion E. vm_compute. now left. }
    destruct (surface_points_columns unit 0 _ _ _ _ E I) as [dims [_ [_ [_ L]]]].
    exact L.
  - vm_compute in E. discriminate E.
Defined.

End MoreSampleRuns.
